(** * TopicChat: the real-time topic messaging engine

    A shallow embedding of the server of the TopicChat repository:
    - [src/server/server.js]: the Socket.io handlers [join-topic],
      [leave-topic], [send-message], [typing-start], [typing-stop],
      [add-reaction] and [disconnect];
    - [src/server/controllers/messageController.js]: the REST controllers
      [editMessage], [deleteMessage] and [addReaction];
    - [src/server/models/Message.js], [src/server/models/Topic.js]: the
      Mongoose schemas;
    - [src/client/src/components/Chat/MessageInput.jsx],
      [src/client/src/components/Chat/ChatArea.jsx] and
      [src/client/src/contexts/SocketContext.jsx]: the typing timer of the
      client, the topic view that mounts it, and the socket it sends on.

    Every handler is one atomic step on the server state: the [await]s of a
    handler are not interleaved with other handlers.  The document store is
    available and every id is a well-formed ObjectId, so that the [catch]
    branches of the handlers are reached only through schema validation. *)

From Stdlib Require Import ZArith NArith Ascii String List Bool Lia.
From stdpp Require Import base gmap sets list strings.

(** ** JavaScript strings *)

(** A JavaScript string is a sequence of UTF-16 code units; [length] counts
    code units, as [String.prototype.length] does. *)
Definition code_unit := N.
Definition jsstring := list code_unit.

(** [js "abc"] is the JavaScript string of a literal. *)
Definition js (s : string) : jsstring :=
  map (λ c, N_of_ascii c) (list_ascii_of_string s).

(** WhiteSpace and LineTerminator code points of ECMAScript, the characters
    that [String.prototype.trim] strips. *)
Definition is_ws (c : code_unit) : bool :=
  (c =? 9)%N || (c =? 10)%N || (c =? 11)%N || (c =? 12)%N || (c =? 13)%N
  || (c =? 32)%N || (c =? 160)%N || (c =? 5760)%N
  || ((8192 <=? c)%N && (c <=? 8202)%N)
  || (c =? 8232)%N || (c =? 8233)%N || (c =? 8239)%N || (c =? 8287)%N
  || (c =? 12288)%N || (c =? 65279)%N.

Fixpoint trimStart (s : jsstring) : jsstring :=
  match s with
  | [] => []
  | c :: s' => if is_ws c then trimStart s' else s
  end.

Definition trimEnd (s : jsstring) : jsstring := rev (trimStart (rev s)).

(** [String.prototype.trim] *)
Definition trim (s : jsstring) : jsstring := trimEnd (trimStart s).

(** ** Data model *)

(** Mongo ObjectIds and Socket.io socket ids are opaque; ObjectIds are
    compared through [toString()], that is by value. *)
Definition ObjectId := N.
Definition SocketId := N.

(** [socket.user], the document that [authenticateSocket] attaches. *)
Record User := {
  _id : ObjectId;
  username : jsstring
}.

(** [src/server/models/Topic.js]; the fields no handler reads ([name],
    [description], [pinnedMessages], [tags]) are left out. *)
Record Topic := {
  isPrivate : bool;
  creator : ObjectId;
  members : list ObjectId;
  admins : list ObjectId;
  topic_updatedAt : Z
}.

(** An element of [messageSchema.reactions]. *)
Record Reaction := {
  reaction_user : ObjectId;
  reaction_emoji : jsstring;
  reaction_createdAt : Z
}.

Inductive MessageType := text | image | file.

(** [src/server/models/Message.js].  Times are milliseconds since the epoch.
    [createdAt] comes from the [timestamps] option of the schema. *)
Record Message := {
  content : jsstring;
  sender : ObjectId;
  topic : ObjectId;
  messageType : MessageType;
  isEdited : bool;
  editedAt : option Z;
  replyTo : option ObjectId;
  reactions : list Reaction;
  createdAt : Z
}.

(** The two collections of the document store. *)
Record Db := {
  topics : gmap ObjectId Topic;
  messages : gmap ObjectId Message
}.

(** A connection: [socket.id], [socket.user], [socket.currentTopic]. *)
Record Socket := {
  socket_id : SocketId;
  user : User;
  currentTopic : option ObjectId
}.

(** Events of the outward surface, with their payloads. *)
Inductive Event :=
| error (message : string)
| message_error (message : string)
| user_joined_topic (u : User)
| user_left_topic (u : User)
| new_message (messageId : ObjectId) (message : Message)
| user_typing (u : User) (topicId : ObjectId)
| user_stop_typing (u : User) (topicId : ObjectId)
| message_reaction_updated (messageId : ObjectId) (rs : list Reaction).

(** One [emit]: the connections it is delivered to, and the event. *)
Record Emit := {
  recipients : gset SocketId;
  event : Event
}.

(** The server: the store, the rooms of the Socket.io adapter (room name to
    the set of sockets in it) and the log of what was emitted, oldest first.
    The room that Socket.io opens for every socket under its own id is left
    out: a socket id is never a topic id. *)
Record Server := {
  db : Db;
  rooms : gmap ObjectId (gset SocketId);
  outbox : list Emit
}.

Definition set_rooms (r : gmap ObjectId (gset SocketId)) (srv : Server)
    : Server :=
  {| db := db srv; rooms := r; outbox := outbox srv |}.

Definition set_db (d : Db) (srv : Server) : Server :=
  {| db := d; rooms := rooms srv; outbox := outbox srv |}.

Definition set_currentTopic (t : option ObjectId) (socket : Socket) : Socket :=
  {| socket_id := socket_id socket; user := user socket; currentTopic := t |}.

(** ** The Socket.io adapter *)

(** The live set of a room: [io.sockets.adapter.rooms.get(room)]. *)
Definition live (room : ObjectId) (srv : Server) : gset SocketId :=
  default ∅ (rooms srv !! room).

(** [socket.join(room)] *)
Definition socket_join (socket : Socket) (room : ObjectId) (srv : Server)
    : Server :=
  set_rooms (<[room := {[socket_id socket]} ∪ live room srv]> (rooms srv)) srv.

(** [socket.leave(room)]: the adapter drops a room that becomes empty. *)
Definition socket_leave (socket : Socket) (room : ObjectId) (srv : Server)
    : Server :=
  match rooms srv !! room with
  | None => srv
  | Some sockets =>
      let sockets' := sockets ∖ {[socket_id socket]} in
      if decide (sockets' = ∅) then set_rooms (delete room (rooms srv)) srv
      else set_rooms (<[room := sockets']> (rooms srv)) srv
  end.

Definition emit_to (to : gset SocketId) (e : Event) (srv : Server) : Server :=
  {| db := db srv; rooms := rooms srv;
     outbox := outbox srv ++ [{| recipients := to; event := e |}] |}.

(** [socket.emit(e)]: to this connection only. *)
Definition socket_emit (socket : Socket) (e : Event) (srv : Server) : Server :=
  emit_to {[socket_id socket]} e srv.

(** [socket.to(room).emit(e)]: to the room, the emitting socket excluded. *)
Definition socket_to_emit (socket : Socket) (room : ObjectId) (e : Event)
    (srv : Server) : Server :=
  emit_to (live room srv ∖ {[socket_id socket]}) e srv.

(** [io.in(room).emit(e)]: to every socket of the room. *)
Definition io_in_emit (room : ObjectId) (e : Event) (srv : Server) : Server :=
  emit_to (live room srv) e srv.

(** ** The document store *)

Definition Topic_findById (topicId : ObjectId) (d : Db) : option Topic :=
  topics d !! topicId.

Definition Message_findById (messageId : ObjectId) (d : Db) : option Message :=
  messages d !! messageId.

(** [array.includes(id)] on a Mongoose array of ObjectIds. *)
Definition includes (l : list ObjectId) (x : ObjectId) : bool :=
  bool_decide (x ∈ l).

(** The validators of [messageSchema.content]: [required] (an empty string
    counts as missing) and [maxLength: 1000]. *)
Definition content_valid (c : jsstring) : bool :=
  negb (bool_decide (c = [])) && (length c <=? 1000)%nat.

(** Assignment to [message.content]: the schema setter [trim: true]. *)
Definition set_content (c : jsstring) (m : Message) : Message :=
  {| content := trim c; sender := sender m; topic := topic m;
     messageType := messageType m; isEdited := isEdited m;
     editedAt := editedAt m; replyTo := replyTo m; reactions := reactions m;
     createdAt := createdAt m |}.

Definition set_edited (at_ : Z) (m : Message) : Message :=
  {| content := content m; sender := sender m; topic := topic m;
     messageType := messageType m; isEdited := true;
     editedAt := Some at_; replyTo := replyTo m; reactions := reactions m;
     createdAt := createdAt m |}.

Definition set_reactions (rs : list Reaction) (m : Message) : Message :=
  {| content := content m; sender := sender m; topic := topic m;
     messageType := messageType m; isEdited := isEdited m;
     editedAt := editedAt m; replyTo := replyTo m; reactions := rs;
     createdAt := createdAt m |}.

Definition set_createdAt (at_ : Z) (m : Message) : Message :=
  {| content := content m; sender := sender m; topic := topic m;
     messageType := messageType m; isEdited := isEdited m;
     editedAt := editedAt m; replyTo := replyTo m; reactions := reactions m;
     createdAt := at_ |}.

(** [new Message({content, sender, topic, replyTo})] with the defaults of the
    schema; [createdAt] is filled in by the first [save]. *)
Definition Message_new (c : jsstring) (from room : ObjectId)
    (reply : option ObjectId) : Message :=
  {| content := trim c; sender := from; topic := room; messageType := text;
     isEdited := false; editedAt := None; replyTo := reply; reactions := [];
     createdAt := 0 |}.

(** [message.save()]: validates, then writes the document under its id.
    [None] is the rejected promise of a validation error. *)
Definition Message_save (messageId : ObjectId) (m : Message) (d : Db)
    : option Db :=
  if content_valid (content m) then
    Some {| topics := topics d; messages := <[messageId := m]> (messages d) |}
  else None.

Definition Message_findByIdAndDelete (messageId : ObjectId) (d : Db) : Db :=
  {| topics := topics d; messages := delete messageId (messages d) |}.

(** [topic.updatedAt = new Date(); await topic.save()] *)
Definition Topic_touch (topicId : ObjectId) (t : Topic) (at_ : Z) (d : Db) : Db :=
  {| topics := <[topicId := {| isPrivate := isPrivate t; creator := creator t;
                              members := members t; admins := admins t;
                              topic_updatedAt := at_ |}]> (topics d);
     messages := messages d |}.

(** The access rule that every handler repeats:
    [!topic.isPrivate || topic.members.includes(user._id)]. *)
Definition hasAccess (t : Topic) (u : User) : bool :=
  negb (isPrivate t) || includes (members t) (_id u).

(** ** [join-topic] (server.js, 159-193) *)

Definition join_topic (socket : Socket) (topicId : ObjectId) (srv : Server)
    : Socket * Server :=
  match Topic_findById topicId (db srv) with
  | None => (socket, socket_emit socket (error "Topic not found") srv)
  | Some t =>
      if negb (hasAccess t (user socket)) then
        (socket, socket_emit socket (error "Access denied to this topic") srv)
      else
        let srv := socket_join socket topicId srv in
        let socket := set_currentTopic (Some topicId) socket in
        (socket, socket_to_emit socket topicId (user_joined_topic (user socket)) srv)
  end.

(** ** [leave-topic] (server.js, 196-207) *)

Definition leave_topic (socket : Socket) (topicId : ObjectId) (srv : Server)
    : Socket * Server :=
  let srv := socket_leave socket topicId srv in
  (socket, socket_to_emit socket topicId (user_left_topic (user socket)) srv).

(** ** [send-message] (server.js, 210-265)

    [data] is [{content, topicId, replyTo}]; [newId] is the ObjectId that
    [new Message] draws, [now] the time of [message.save()] and [now'] the
    [new Date()] written to the topic.  The [populate] calls only decorate
    the payload and are not modelled. *)

Definition send_message (socket : Socket) (content : jsstring)
    (topicId : ObjectId) (replyTo : option ObjectId)
    (newId : ObjectId) (now now' : Z) (srv : Server) : Server :=
  if bool_decide (content = []) || bool_decide (trim content = []) then
    socket_emit socket (message_error "Message content cannot be empty") srv
  else if (1000 <? length content)%nat then
    socket_emit socket (message_error "Message too long (max 1000 characters)") srv
  else
    match Topic_findById topicId (db srv) with
    | None => socket_emit socket (message_error "Topic not found") srv
    | Some t =>
        if negb (hasAccess t (user socket)) then
          socket_emit socket (message_error "Access denied to this topic") srv
        else
          let message :=
            set_createdAt now
              (Message_new (trim content) (_id (user socket)) topicId replyTo) in
          match Message_save newId message (db srv) with
          | None => socket_emit socket (message_error "Failed to send message") srv
          | Some d =>
              let srv := set_db (Topic_touch topicId t now' d) srv in
              io_in_emit topicId (new_message newId message) srv
          end
    end.

(** ** [typing-start], [typing-stop] (server.js, 268-288) *)

Definition typing_start (socket : Socket) (topicId : ObjectId) (srv : Server)
    : Server :=
  socket_to_emit socket topicId (user_typing (user socket) topicId) srv.

Definition typing_stop (socket : Socket) (topicId : ObjectId) (srv : Server)
    : Server :=
  socket_to_emit socket topicId (user_stop_typing (user socket) topicId) srv.

(** ** Reactions *)

(** The test of [find] and [filter] in both reaction handlers:
    [r.user.toString() === user._id.toString() && r.emoji === emoji]. *)
Definition same_reaction (u : User) (emoji : jsstring) (r : Reaction) : bool :=
  bool_decide (reaction_user r = _id u) && bool_decide (reaction_emoji r = emoji).

(** The find-or-toggle block that [add-reaction] (server.js, 307-322) and
    [addReaction] (messageController.js, 191-206) share; [now] is the
    [Date.now] default of the pushed reaction's [createdAt]. *)
Definition toggleReaction (u : User) (emoji : jsstring) (now : Z)
    (rs : list Reaction) : list Reaction :=
  match List.find (same_reaction u emoji) rs with
  | Some existingReaction =>
      List.filter (λ r, negb (same_reaction u emoji r)) rs
  | None =>
      rs ++ [{| reaction_user := _id u; reaction_emoji := emoji;
                reaction_createdAt := now |}]
  end.

(** [add-reaction] (server.js, 291-336) *)
Definition add_reaction (socket : Socket) (messageId : ObjectId)
    (emoji : jsstring) (now : Z) (srv : Server) : Server :=
  if bool_decide (emoji = []) || (10 <? length emoji)%nat then srv
  else
    match Message_findById messageId (db srv) with
    | None => socket_emit socket (error "Message not found") srv
    | Some message =>
        let message :=
          set_reactions (toggleReaction (user socket) emoji now (reactions message))
                        message in
        match Message_save messageId message (db srv) with
        | None => socket_emit socket (error "Failed to update reaction") srv
        | Some d =>
            io_in_emit (topic message)
              (message_reaction_updated messageId (reactions message))
              (set_db d srv)
        end
    end.

(** ** [disconnect] (server.js, 339-355) *)

(** Socket.io takes a closing socket out of all its rooms before it fires
    [disconnect]. *)
Definition leaveAll (socket : Socket) (srv : Server) : Server :=
  set_rooms
    (omap (λ sockets : gset SocketId,
             let sockets' := sockets ∖ {[socket_id socket]} in
             if decide (sockets' = ∅) then None else Some sockets')
          (rooms srv))
    srv.

Definition disconnect (socket : Socket) (srv : Server) : Server :=
  let srv := leaveAll socket srv in
  match currentTopic socket with
  | Some t => socket_to_emit socket t (user_left_topic (user socket)) srv
  | None => srv
  end.

(** ** The REST controllers (messageController.js) *)

Inductive Body :=
| msg (message : string)         (* [{ message }] *)
| thrown                         (* [{ message: error.message }] of the catch *)
| ok_message (m : Message)       (* [{ success: true, message }] *)
| ok_text (message : string)     (* [{ success: true, message: '...' }] *)
| ok_reactions (rs : list Reaction).

Record Response := json {
  status : nat;
  body : Body
}.

(** The editable window, [15 * 60 * 1000] milliseconds. *)
Definition fifteenMinutes : Z := 15 * 60 * 1000.

(** [editMessage] (messageController.js, 110-146); [now] is [Date.now()] of
    the window check, [now'] the later [new Date()] of [editedAt]. *)
Definition editMessage (reqUser : User) (messageId : ObjectId)
    (content : jsstring) (now now' : Z) (d : Db) : Response * Db :=
  match Message_findById messageId d with
  | None => (json 404 (msg "Message not found"), d)
  | Some message =>
      if negb (bool_decide (sender message = _id reqUser)) then
        (json 403 (msg "Can only edit your own messages"), d)
      else
        let fifteenMinutesAgo := (now - fifteenMinutes)%Z in
        if (createdAt message <? fifteenMinutesAgo)%Z then
          (json 400 (msg "Message is too old to edit"), d)
        else
          let message := set_edited now' (set_content content message) in
          match Message_save messageId message d with
          | None => (json 500 thrown, d)
          | Some d' => (json 200 (ok_message message), d')
          end
  end.

(** [deleteMessage] (messageController.js, 149-177); reading [topic.admins]
    of a topic that is gone throws. *)
Definition deleteMessage (reqUser : User) (messageId : ObjectId) (d : Db)
    : Response * Db :=
  match Message_findById messageId d with
  | None => (json 404 (msg "Message not found"), d)
  | Some message =>
      match Topic_findById (topic message) d with
      | None => (json 500 thrown, d)
      | Some t =>
          let isOwner := bool_decide (sender message = _id reqUser) in
          let isAdmin := includes (admins t) (_id reqUser) in
          if negb isOwner && negb isAdmin then
            (json 403 (msg "Not authorized to delete this message"), d)
          else
            (json 200 (ok_text "Message deleted successfully"),
             Message_findByIdAndDelete messageId d)
      end
  end.

(** [addReaction] (messageController.js, 180-219) *)
Definition addReaction (reqUser : User) (messageId : ObjectId)
    (emoji : jsstring) (now : Z) (d : Db) : Response * Db :=
  match Message_findById messageId d with
  | None => (json 404 (msg "Message not found"), d)
  | Some message =>
      let message :=
        set_reactions (toggleReaction reqUser emoji now (reactions message))
                      message in
      match Message_save messageId message d with
      | None => (json 500 thrown, d)
      | Some d' => (json 200 (ok_reactions (reactions message)), d')
      end
  end.

(** A controller runs against the store alone: [messageController.js] holds
    no reference to [io], so an HTTP request leaves rooms and outbox as they
    are. *)
Definition http (controller : Db → Response * Db) (srv : Server)
    : Response * Server :=
  let (res, d) := controller (db srv) in (res, set_db d srv).

(** ** The typing timer of the client (MessageInput.jsx, 24-52) *)

(** What one render of the component sees of its two contexts: [connected]
    of SocketContext and [currentTopic] of ChatContext.  A function defined
    in a render keeps reading the values of that render. *)
Record Render := {
  connected : bool;
  chatTopic : option ObjectId
}.

(** [isTypingRef.current] and [typingTimeoutRef.current]; a pending timer is
    held with the render whose [handleTypingStop] it will call. *)
Record MessageInput := {
  isTypingRef : bool;
  typingTimeoutRef : option Render
}.

(** What the helpers of SocketContext.jsx (115-150) hand to the socket.
    Each helper emits only [if (socketRef.current && connected)], with the
    [connected] of the render it was taken from. *)
Inductive Command :=
| join_topic_command (topicId : ObjectId)
| leave_topic_command (topicId : ObjectId)
| typing_start_command (topicId : ObjectId)
| typing_stop_command (topicId : ObjectId).

Definition handleTypingStart (r : Render) (c : MessageInput)
    : MessageInput * list Command :=
  let '(isTyping, sent) :=
    match chatTopic r with
    | Some t =>
        if negb (isTypingRef c) && connected r
        then (true, [typing_start_command t])
        else (isTypingRef c, [])
    | None => (isTypingRef c, [])
    end in
  (* clearTimeout of the old timer, setTimeout(handleTypingStop, 3000) *)
  ({| isTypingRef := isTyping; typingTimeoutRef := Some r |}, sent).

Definition handleTypingStop (r : Render) (c : MessageInput)
    : MessageInput * list Command :=
  let '(isTyping, sent) :=
    match chatTopic r with
    | Some t =>
        if isTypingRef c && connected r
        then (false, [typing_stop_command t])
        else (isTypingRef c, [])
    | None => (isTypingRef c, [])
    end in
  ({| isTypingRef := isTyping; typingTimeoutRef := None |}, sent).

(** ** The topic view of the client (ChatArea.jsx, 16-41) *)

(** The effect of ChatArea that is in force: [topic._id] and [connected] of
    the render that ran it.  Its clean-up reads these. *)
Record AreaEffect := {
  areaTopic : ObjectId;
  areaConnected : bool
}.

(** The clean-up of the effect: [if (connected) leaveTopic(topicId)]. *)
Definition area_cleanup (e : option AreaEffect) : list Command :=
  match e with
  | Some e =>
      if areaConnected e then [leave_topic_command (areaTopic e)] else []
  | None => []
  end.

(** The body of the effect in render [r]: [if (connected) joinTopic(topicId)];
    it then sets [loading] and starts [loadMessages]. *)
Definition area_effect (t : ObjectId) (r : Render)
    : AreaEffect * list Command :=
  ({| areaTopic := t; areaConnected := connected r |},
   if connected r then [join_topic_command t] else []).

(** ** One connection from end to end *)

(** The browser side of a connection together with its socket on the
    server.  [latest] is the render on screen; its [connected] follows the
    [connect] and [disconnect] events of the socket (SocketContext.jsx,
    42-52), so it also tells whether the socket is up.  [sendBuffer] holds
    what was handed to the socket while it was down.  [chatArea] is the
    effect of the topic view, if a topic is open; [mounted] is the first
    render of the input box, if it is on screen.

    A step is one event handled to its end: the renders that it causes and
    their effects run before the next event, and both ends notice a lost
    connection in the same step. *)
Record Client := {
  socket : Socket;
  sendBuffer : list Command;
  latest : Render;
  chatArea : option AreaEffect;
  mounted : option Render;
  input : MessageInput
}.

(** What can happen to a connection: a keystroke ([handleInputChange] with
    text), the 3-second timer firing, a stop ([handleInputChange] with blank
    text, or sending), leaving the topic (the topic view closes), the
    connection going away, the socket connecting again as the server-side
    socket [id], and the [loadMessages] of the topic view settling. *)
Inductive Trigger :=
| keystroke
| timer_fires
| stop
| leave
| connection_lost
| reconnect (id : SocketId)
| messages_loaded (ok : bool).

Definition with_input (i : MessageInput) (c : Client) : Client :=
  {| socket := socket c; sendBuffer := sendBuffer c; latest := latest c;
     chatArea := chatArea c; mounted := mounted c; input := i |}.

Definition with_latest (r : Render) (c : Client) : Client :=
  {| socket := socket c; sendBuffer := sendBuffer c; latest := r;
     chatArea := chatArea c; mounted := mounted c; input := input c |}.

(** The server handler of a command. *)
Definition receive (cmd : Command) (st : Socket * Server) : Socket * Server :=
  let (s, srv) := st in
  match cmd with
  | join_topic_command t => join_topic s t srv
  | leave_topic_command t => leave_topic s t srv
  | typing_start_command t => (s, typing_start s t srv)
  | typing_stop_command t => (s, typing_stop s t srv)
  end.

Definition deliver (sent : list Command) (st : Socket * Server)
    : Socket * Server :=
  fold_left (λ st cmd, receive cmd st) sent st.

(** [socket.emit] of socket.io-client: a packet travels at once while the
    socket is connected, and waits in [sendBuffer] while it is not. *)
Definition transmit (sent : list Command) (c : Client) (srv : Server)
    : Client * Server :=
  if connected (latest c) then
    let (s, srv) := deliver sent (socket c, srv) in
    ({| socket := s; sendBuffer := sendBuffer c; latest := latest c;
        chatArea := chatArea c; mounted := mounted c; input := input c |},
     srv)
  else
    ({| socket := socket c; sendBuffer := sendBuffer c ++ sent;
        latest := latest c; chatArea := chatArea c; mounted := mounted c;
        input := input c |},
     srv).

(** The input box goes off screen: the clean-up of its mount effect
    (MessageInput.jsx, 97-102) calls the [handleTypingStop] of its first
    render. *)
Definition unmount (c : Client) : MessageInput * list Command :=
  match mounted c with
  | Some first => handleTypingStop first (input c)
  | None => (input c, [])
  end.

(** The text area is on screen when the input box is mounted with a
    [currentTopic], and enabled when [connected] (MessageInput.jsx, 104-106
    and 128). *)
Definition typable (c : Client) : bool :=
  match mounted c, chatTopic (latest c) with
  | Some _, Some _ => connected (latest c)
  | _, _ => false
  end.

(** [connected] has changed and [r] is the new render: the effect of the
    topic view runs again.  Its old clean-up runs first, then its body, and
    as the body sets [loading] the input box goes off screen. *)
Definition area_rerun (r : Render) (c : Client) : Client * list Command :=
  match chatArea c with
  | Some e =>
      let (e', joined) := area_effect (areaTopic e) r in
      let (i, stopped) := unmount c in
      ({| socket := socket c; sendBuffer := sendBuffer c; latest := r;
          chatArea := Some e'; mounted := None; input := i |},
       area_cleanup (Some e) ++ joined ++ stopped)
  | None => (with_latest r c, [])
  end.

Definition step (tr : Trigger) (st : Client * Server) : Client * Server :=
  let (c, srv) := st in
  match tr with
  | keystroke =>
      if typable c then
        let (i, sent) := handleTypingStart (latest c) (input c) in
        transmit sent (with_input i c) srv
      else st
  | timer_fires =>
      match typingTimeoutRef (input c) with
      | Some r =>
          let (i, sent) := handleTypingStop r (input c) in
          transmit sent (with_input i c) srv
      | None => st
      end
  | stop =>
      if typable c then
        let (i, sent) := handleTypingStop (latest c) (input c) in
        transmit sent (with_input i c) srv
      else st
  | leave =>
      (* ChatArea is taken off screen and the input box with it *)
      match chatArea c with
      | Some e =>
          let (i, stopped) := unmount c in
          transmit (area_cleanup (Some e) ++ stopped)
            {| socket := socket c; sendBuffer := sendBuffer c;
               latest := latest c; chatArea := None; mounted := None;
               input := i |}
            srv
      | None => st
      end
  | connection_lost =>
      if connected (latest c) then
        (* the server runs [disconnect]; the browser sets [connected] to
           false, and what its effects hand to the socket is buffered *)
        let (c, sent) :=
          area_rerun {| connected := false; chatTopic := chatTopic (latest c) |}
            c in
        transmit sent c (disconnect (socket c) srv)
      else st
  | reconnect id =>
      if connected (latest c) then st
      else
        (* a new socket of the same user; [onconnect] of socket.io-client
           first sends what is buffered and then fires [connect] *)
        let (s, srv) :=
          deliver (sendBuffer c)
            ({| socket_id := id; user := user (socket c);
                currentTopic := None |}, srv) in
        let (c, sent) :=
          area_rerun {| connected := true; chatTopic := chatTopic (latest c) |}
            {| socket := s; sendBuffer := []; latest := latest c;
               chatArea := chatArea c; mounted := mounted c;
               input := input c |} in
        transmit sent c srv
  | messages_loaded ok =>
      (* ChatContext sets [currentTopic] when the load went well, and
         ChatArea clears [loading] either way: the input box comes on screen
         with fresh refs *)
      match chatArea c with
      | Some e =>
          let r := if ok
                   then {| connected := connected (latest c);
                           chatTopic := Some (areaTopic e) |}
                   else latest c in
          match mounted c with
          | None =>
              ({| socket := socket c; sendBuffer := sendBuffer c; latest := r;
                  chatArea := chatArea c; mounted := Some r;
                  input := {| isTypingRef := false;
                              typingTimeoutRef := None |} |},
               srv)
          | Some _ => (with_latest r c, srv)
          end
      | None => st
      end
  end.

Definition run (trs : list Trigger) (st : Client * Server) : Client * Server :=
  fold_left (λ st tr, step tr st) trs st.

Definition is_stop_typing (e : Emit) : bool :=
  match event e with
  | user_stop_typing _ _ => true
  | _ => false
  end.

(** The [user-stop-typing] emits of the log. *)
Definition stop_typing_emits (srv : Server) : list Emit :=
  List.filter is_stop_typing (outbox srv).

(** ** A small world for the examples *)

Definition alice : User := {| _id := 1%N; username := js "alice" |}.
Definition bob : User := {| _id := 2%N; username := js "bob" |}.
Definition carol : User := {| _id := 3%N; username := js "carol" |}.

(** Topic 10 is public, topic 20 is private with alice as its only member;
    both were created by alice. *)
Definition lobby : Topic :=
  {| isPrivate := false; creator := 1%N; members := [1%N]; admins := [1%N];
     topic_updatedAt := 0 |}.
Definition backroom : Topic :=
  {| isPrivate := true; creator := 1%N; members := [1%N]; admins := [1%N];
     topic_updatedAt := 0 |}.

Definition alice_socket : Socket :=
  {| socket_id := 100%N; user := alice; currentTopic := None |}.
Definition bob_socket : Socket :=
  {| socket_id := 200%N; user := bob; currentTopic := None |}.
Definition carol_socket : Socket :=
  {| socket_id := 300%N; user := carol; currentTopic := None |}.

Definition db0 : Db :=
  {| topics := <[10%N := lobby]> (<[20%N := backroom]> ∅); messages := ∅ |}.

(** Nobody has joined anything yet. *)
Definition server0 : Server := {| db := db0; rooms := ∅; outbox := [] |}.

(** ** Vocabulary of the statements *)

(** A string that does not start with white space. *)
Definition starts_clean (s : jsstring) : Prop :=
  match s with
  | [] => True
  | c :: _ => is_ws c = false
  end.

(** A join that went through: the socket is in the live set of the room, the
    room is its current topic, and the only emit is [user-joined-topic] to
    the others in the room. *)
Definition joined (socket : Socket) (topicId : ObjectId) (srv : Server)
    (res : Socket * Server) : Prop :=
  socket_id socket ∈ live topicId res.2
  ∧ currentTopic res.1 = Some topicId
  ∧ outbox res.2
    = outbox srv ++ [{| recipients := live topicId srv ∖ {[socket_id socket]};
                        event := user_joined_topic (user socket) |}].

(** A join that was refused: an [error] event with the access-denied message
    goes to the caller alone, and neither the rooms nor the socket change. *)
Definition access_denied (socket : Socket) (srv : Server)
    (res : Socket * Server) : Prop :=
  res.1 = socket
  ∧ rooms res.2 = rooms srv
  ∧ outbox res.2
    = outbox srv ++ [{| recipients := {[socket_id socket]};
                        event := error "Access denied to this topic" |}].


(** Alice alone has joined the public topic, on a fresh log. *)
Definition server1 : Server :=
  {| db := db0; rooms := {[10%N := {[100%N]}]}; outbox := [] |}.

(** The document that [send-message] builds and saves. *)
Definition sent_message (socket : Socket) (c : jsstring)
    (topicId : ObjectId) (replyTo_ : option ObjectId) (now : Z) : Message :=
  {| content := trim c; sender := _id (user socket); topic := topicId;
     messageType := text; isEdited := false; editedAt := None;
     replyTo := replyTo_; reactions := []; createdAt := now |}.

(** What the checks of [send-message] let through. *)
Definition sendable (socket : Socket) (c : jsstring)
    (topicId : ObjectId) (srv : Server) : Prop :=
  trim c ≠ [] ∧ (length c ≤ 1000)%nat
  ∧ ∃ t, Topic_findById topicId (db srv) = Some t
         ∧ hasAccess t (user socket) = true.

(** The last thing the server did was to emit [e] to [to]. *)
Definition emitted (to : gset SocketId) (e : Event) (srv srv' : Server) : Prop :=
  outbox srv' = outbox srv ++ [{| recipients := to; event := e |}].

(** The two content errors of [send-message]. *)
Definition InvalidContent (socket : Socket) (srv srv' : Server) : Prop :=
  srv' = socket_emit socket (message_error "Message content cannot be empty") srv
  ∨ srv' = socket_emit socket
             (message_error "Message too long (max 1000 characters)") srv.

(** One letter and a thousand blanks: 1001 code units, one after [trim]. *)
Definition padded : jsstring := js "a" ++ repeat 32%N 1000.

(** Bob is in the public topic; alice has not joined anything. *)
Definition server_bob : Server :=
  {| db := db0; rooms := {[10%N := {[200%N]}]}; outbox := [] |}.

(** A message of bob in the public topic, written at time 1000. *)
Definition bobs_message : Message :=
  {| content := js "hello"; sender := 2%N; topic := 10%N; messageType := text;
     isEdited := false; editedAt := None; replyTo := None; reactions := [];
     createdAt := 1000 |}.

Definition db1 : Db :=
  {| topics := topics db0; messages := <[7%N := bobs_message]> ∅ |}.

(** Alice and bob are both live in the public topic, which holds bob's
    message. *)
Definition server2 : Server :=
  {| db := db1; rooms := {[10%N := {[100%N; 200%N]}]}; outbox := [] |}.

(** [deleteMessage] lets the caller through. *)
Definition may_delete (u : User) (m : Message) (t : Topic) : Prop :=
  sender m = _id u ∨ _id u ∈ admins t.

(** An edit changes these three fields and no other. *)
Definition edited (m : Message) (c : jsstring) (at_ : Z) : Message :=
  {| content := c; sender := sender m; topic := topic m;
     messageType := messageType m; isEdited := true; editedAt := Some at_;
     replyTo := replyTo m; reactions := reactions m; createdAt := createdAt m |}.

(** A browser that is connected on socket [s] and shows topic [t]: the
    messages are loaded, the input box is on screen and empty. *)
Definition fresh_client (s : Socket) (t : ObjectId) : Client :=
  {| socket := s; sendBuffer := [];
     latest := {| connected := true; chatTopic := Some t |};
     chatArea := Some {| areaTopic := t; areaConnected := true |};
     mounted := Some {| connected := true; chatTopic := Some t |};
     input := {| isTypingRef := false; typingTimeoutRef := None |} |}.

(** The triggers by which the browser itself ends a typing entry. *)
Definition ends_typing (tr : Trigger) : Prop :=
  tr = timer_fires ∨ tr = stop ∨ tr = leave.

(** No typing activity. *)
Definition no_typing (tr : Trigger) : Prop := tr ≠ keystroke.

(** The connection is not taken up again. *)
Definition stays_down (tr : Trigger) : Prop := ∀ id, tr ≠ reconnect id.

Definition is_typing_stop_command (cmd : Command) : bool :=
  match cmd with
  | typing_stop_command _ => true
  | _ => false
  end.

(** The browser holds no typing entry: the input box does not count itself
    as typing and no [typing-stop] waits in the send buffer. *)
Definition at_rest (c : Client) : Prop :=
  isTypingRef (input c) = false
  ∧ forallb (λ cmd, negb (is_typing_stop_command cmd)) (sendBuffer c) = true.

(** Alice has joined the public topic and it is her current topic. *)
Definition alice_live : Socket := set_currentTopic (Some 10%N) alice_socket.

(** Is there a reaction of user [u] with [emoji] in the list? *)
Definition has_reaction (u : User) (emoji : jsstring) (rs : list Reaction) : bool :=
  existsb (same_reaction u emoji) rs.

(** The reactions of everybody else, and of [u] with other emoji, in list
    order. *)
Definition other_reactions (u : User) (emoji : jsstring) (rs : list Reaction)
    : list Reaction :=
  List.filter (λ r, negb (same_reaction u emoji r)) rs.

(** Do [(u', emoji')] and [(u, emoji)] name the same pair? *)
Definition same_pair (u' : User) (emoji' : jsstring) (u : User) (emoji : jsstring)
    : bool :=
  bool_decide (_id u' = _id u) && bool_decide (emoji' = emoji).

(** The same user reacting with the same emoji at each of [times]. *)
Definition react_times (u : User) (emoji : jsstring) (times : list Z)
    (rs : list Reaction) : list Reaction :=
  fold_left (λ rs now, toggleReaction u emoji now rs) times rs.

(** The same, as requests to [addReaction]. *)
Definition addReaction_times (u : User) (messageId : ObjectId) (emoji : jsstring)
    (times : list Z) (d : Db) : Db :=
  fold_left (λ d now, (addReaction u messageId emoji now d).2) times d.

(** U+1F44D as its surrogate pair. *)
Definition thumbs_up : jsstring := [55357%N; 56397%N].

(** Bob's message with a thumbs-up of alice, then one of bob. *)
Definition liked_message : Message :=
  set_reactions
    [{| reaction_user := 1%N; reaction_emoji := thumbs_up;
        reaction_createdAt := 2000 |};
     {| reaction_user := 2%N; reaction_emoji := thumbs_up;
        reaction_createdAt := 3000 |}]
    bobs_message.

Definition db2 : Db :=
  {| topics := topics db0; messages := <[7%N := liked_message]> ∅ |}.

(** [m'] is [m] up to its reaction list. *)
Definition same_but_reactions (m m' : Message) : Prop :=
  content m' = content m ∧ sender m' = sender m ∧ topic m' = topic m
  ∧ createdAt m' = createdAt m ∧ isEdited m' = isEdited m
  ∧ editedAt m' = editedAt m ∧ replyTo m' = replyTo m
  ∧ messageType m' = messageType m.

(** The reaction that a toggle pushes. *)
Definition new_reaction (u : User) (emoji : jsstring) (now : Z) : Reaction :=
  {| reaction_user := _id u; reaction_emoji := emoji; reaction_createdAt := now |}.

(** * The rest of the engine *)

From stdpp Require Import sorting.

(** ** Invariants of the server state *)

(** The adapter never keeps an empty room. *)
Definition rooms_wf (srv : Server) : Prop :=
  ∀ room sockets, rooms srv !! room = Some sockets → sockets ≠ ∅.

(** Every stored message passes the validators of its schema. *)
Definition db_valid (d : Db) : Prop :=
  ∀ messageId m, messages d !! messageId = Some m →
                 content_valid (content m) = true.

(** Alice and bob are both live in alice's private topic, of which bob is no
    member (any more). *)
Definition server_backroom : Server :=
  {| db := db0; rooms := {[20%N := {[100%N; 200%N]}]}; outbox := [] |}.

(** ** The topic controllers (topicController.js)

    [now] is the time of [topic.save()], which the [timestamps] option of
    the schema writes to [updatedAt].  The validators of the topic schema
    bear on [name] and [description] only, which these controllers do not
    write, so that [save] does not fail here. *)

Inductive TopicBody :=
| topic_msg (message : string)            (* [{ message }] *)
| topic_ok (message : string) (t : Topic) (* [{ success, message, topic }] *)
| topic_done (message : string)           (* [{ success, message }] *)
| topic_detail (t : Topic).               (* [{ success, topic }] *)

Record TopicResponse := topic_json {
  topic_status : nat;
  topic_body : TopicBody
}.

Definition Topic_save (topicId : ObjectId) (t : Topic) (d : Db) : Db :=
  {| topics := <[topicId := t]> (topics d); messages := messages d |}.

Definition Topic_findByIdAndDelete (topicId : ObjectId) (d : Db) : Db :=
  {| topics := delete topicId (topics d); messages := messages d |}.

(** [joinTopic] (topicController.js, 83-121) *)
Definition joinTopic (reqUser : User) (topicId : ObjectId) (now : Z) (d : Db)
    : TopicResponse * Db :=
  let userId := _id reqUser in
  match Topic_findById topicId d with
  | None => (topic_json 404 (topic_msg "Topic not found"), d)
  | Some t =>
      if isPrivate t then
        (topic_json 403
           (topic_msg "Cannot join private topic without invitation"), d)
      else if includes (members t) userId then
        (topic_json 400
           (topic_msg "You are already a member of this topic"), d)
      else
        let t := {| isPrivate := isPrivate t; creator := creator t;
                    members := members t ++ [userId]; admins := admins t;
                    topic_updatedAt := now |} in
        (topic_json 200 (topic_ok "Successfully joined topic" t),
         Topic_save topicId t d)
  end.

(** [leaveTopic] (topicController.js, 124-166) *)
Definition leaveTopic (reqUser : User) (topicId : ObjectId) (now : Z) (d : Db)
    : TopicResponse * Db :=
  let userId := _id reqUser in
  match Topic_findById topicId d with
  | None => (topic_json 404 (topic_msg "Topic not found"), d)
  | Some t =>
      if negb (includes (members t) userId) then
        (topic_json 400 (topic_msg "You are not a member of this topic"), d)
      else if bool_decide (creator t = userId) then
        (topic_json 400
           (topic_msg "Topic creator cannot leave. Transfer ownership first."),
         d)
      else
        let t := {| isPrivate := isPrivate t; creator := creator t;
                    members :=
                      List.filter (λ member, negb (bool_decide (member = userId)))
                                  (members t);
                    admins :=
                      List.filter (λ admin, negb (bool_decide (admin = userId)))
                                  (admins t);
                    topic_updatedAt := now |} in
        (topic_json 200 (topic_done "Successfully left topic"),
         Topic_save topicId t d)
  end.

(** An element of a Mongoose array of references: the id as stored, or,
    after [populate], the document it refers to. *)
Inductive Ref :=
| ref_id (id : ObjectId)
| ref_doc (id : ObjectId).

(** [populate(path, ...)] on an array of ids puts the documents in their
    place. *)
Definition populate (ids : list ObjectId) : list Ref := ref_doc <$> ids.

(** [array.includes(id)] of Mongoose compares the id, as a string, with
    each element by [==]: an id that is stored as such is found, a document
    is never equal to it. *)
Definition includes_ref (l : list Ref) (x : ObjectId) : bool :=
  existsb (λ r, match r with
                | ref_id id => bool_decide (id = x)
                | ref_doc _ => false
                end) l.

(** [getTopicById] (topicController.js, 169-199).  The query populates
    [members] before the access check, so that [topic.members.includes]
    runs on documents. *)
Definition getTopicById (reqUser : User) (topicId : ObjectId) (d : Db)
    : TopicResponse :=
  match Topic_findById topicId d with
  | None => topic_json 404 (topic_msg "Topic not found")
  | Some t =>
      let members := populate (members t) in
      let hasAccess := negb (isPrivate t) || includes_ref members (_id reqUser) in
      if negb hasAccess then
        topic_json 403 (topic_msg "You do not have access to this topic")
      else topic_json 200 (topic_detail t)
  end.

(** [deleteTopic] (topicController.js, 202-232) *)
Definition deleteTopic (reqUser : User) (topicId : ObjectId) (d : Db)
    : TopicResponse * Db :=
  match Topic_findById topicId d with
  | None => (topic_json 404 (topic_msg "Topic not found"), d)
  | Some t =>
      if negb (bool_decide (creator t = _id reqUser)) then
        (topic_json 403 (topic_msg "Only topic creator can delete the topic"), d)
      else
        (topic_json 200 (topic_done "Topic deleted successfully"),
         Topic_findByIdAndDelete topicId d)
  end.

(** The filter of [getTopics]: public, or private with the user among the
    members. *)
Definition listed (userId : ObjectId) (entry : ObjectId * Topic) : Prop :=
  isPrivate entry.2 = false
  ∨ (isPrivate entry.2 = true ∧ userId ∈ members entry.2).

(** [sort({ updatedAt: -1 })] *)
Definition updated_later (a b : ObjectId * Topic) : Prop :=
  (topic_updatedAt b.2 ≤ topic_updatedAt a.2)%Z.

#[global] Instance listed_dec (userId : ObjectId) (entry : ObjectId * Topic) :
  Decision (listed userId entry).
Proof. unfold listed. apply _. Defined.

#[global] Instance updated_later_dec (a b : ObjectId * Topic) :
  Decision (updated_later a b).
Proof. unfold updated_later. apply _. Defined.

(** [getTopics] (topicController.js, 6-29): the topics of the answer, in
    its order.  Among topics of equal [updatedAt] the store is free to
    choose an order; here they come in the order of the collection. *)
Definition getTopics (reqUser : User) (d : Db) : list (ObjectId * Topic) :=
  merge_sort updated_later
    (filter (listed (_id reqUser)) (map_to_list (topics d))).

(** A topic record as [createTopic] makes it and the controllers keep it. *)
Definition topic_wf (t : Topic) : Prop :=
  creator t ∈ members t
  ∧ NoDup (members t)
  ∧ ∀ admin, admin ∈ admins t → admin ∈ members t.

Definition topics_wf (d : Db) : Prop :=
  ∀ topicId t, topics d !! topicId = Some t → topic_wf t.

(** ** History (messageController.js, 7-50) *)

(** [parseInt(q) || dflt]: [None] is [NaN].  Negative numbers are outside
    the embedding. *)
Definition or_default (parsed : option nat) (dflt : nat) : nat :=
  match parsed with
  | Some (S n) => S n
  | _ => dflt
  end.

(** [sort({ createdAt: -1 })] *)
Definition created_later (a b : ObjectId * Message) : Prop :=
  (createdAt b.2 ≤ createdAt a.2)%Z.

#[global] Instance created_later_dec (a b : ObjectId * Message) :
  Decision (created_later a b).
Proof. unfold created_later. apply _. Defined.

(** [Message.find({ topic: topicId }).sort({ createdAt: -1 })], before
    [limit] and [skip]; messages of equal [createdAt] come in the order of
    the collection. *)
Definition newest_first (topicId : ObjectId) (d : Db)
    : list (ObjectId * Message) :=
  merge_sort created_later
    (filter (λ entry : ObjectId * Message, topic entry.2 = topicId)
            (map_to_list (messages d))).

Record Pagination := {
  currentPage : nat;
  totalPages : nat;
  totalMessages : nat;
  hasMore : bool
}.

Inductive MessagesResponse :=
| messages_refused (status : nat) (message : string)
| messages_page (page : list (ObjectId * Message)) (pagination : Pagination).

(** [Math.ceil(total / limit)] for a limit of at least one. *)
Definition ceil_div (total limit : nat) : nat := (total + limit - 1) / limit.

Definition getMessages (reqUser : User) (topicId : ObjectId)
    (query_page query_limit : option nat) (d : Db) : MessagesResponse :=
  let page := or_default query_page 1 in
  let limit := or_default query_limit 50 in
  let skip := (page - 1) * limit in
  match Topic_findById topicId d with
  | None => messages_refused 404 "Topic not found"
  | Some t =>
      if negb (hasAccess t reqUser) then
        messages_refused 403 "Access denied to this topic"
      else
        let found := take limit (drop skip (newest_first topicId d)) in
        let totalMessages := length (newest_first topicId d) in
        messages_page (rev found)
          {| currentPage := page;
             totalPages := ceil_div totalMessages limit;
             totalMessages := totalMessages;
             hasMore := (skip + length found <? totalMessages)%nat |}
  end.

(** ** The chat state of the browser (ChatContext) *)

(** [messages], [hasMore], [currentPage] and [currentTopic] of the provider;
    [loading] is false whenever no request is under way. *)
Record ChatState := {
  chat_messages : list (ObjectId * Message);
  chat_hasMore : bool;
  chat_currentPage : nat;
  chat_currentTopic : option ObjectId
}.

(** [loadMessages(topicId, page, append)] against the store [d]; a refused
    request is logged and changes nothing. *)
Definition loadMessages (u : User) (topicId : ObjectId) (page : nat)
    (append : bool) (d : Db) (st : ChatState) : ChatState :=
  match getMessages u topicId (Some page) (Some 50%nat) d with
  | messages_page newMessages pagination =>
      {| chat_messages :=
           if append then newMessages ++ chat_messages st else newMessages;
         chat_hasMore := hasMore pagination;
         chat_currentPage := currentPage pagination;
         chat_currentTopic :=
           if append then chat_currentTopic st else Some topicId |}
  | messages_refused _ _ => st
  end.

Definition loadMoreMessages (u : User) (d : Db) (st : ChatState) : ChatState :=
  match chat_currentTopic st with
  | Some t =>
      if chat_hasMore st
      then loadMessages u t (chat_currentPage st + 1) true d st
      else st
  | None => st
  end.

(** [handleNewMessage]: a message whose id is already shown is skipped. *)
Definition handleNewMessage (message : ObjectId * Message)
    (prev : list (ObjectId * Message)) : list (ObjectId * Message) :=
  if existsb (λ msg : ObjectId * Message, bool_decide (msg.1 = message.1)) prev
  then prev
  else prev ++ [message].

(** [handleReactionUpdate] *)
Definition handleReactionUpdate (messageId : ObjectId) (rs : list Reaction)
    (prev : list (ObjectId * Message)) : list (ObjectId * Message) :=
  map (λ msg : ObjectId * Message,
         if bool_decide (msg.1 = messageId)
         then (msg.1, set_reactions rs msg.2)
         else msg)
      prev.

(** The two listeners, as one function of the event received. *)
Definition chat_on (e : Event) (prev : list (ObjectId * Message))
    : list (ObjectId * Message) :=
  match e with
  | new_message messageId m => handleNewMessage (messageId, m) prev
  | message_reaction_updated messageId rs =>
      handleReactionUpdate messageId rs prev
  | _ => prev
  end.

(** What a connection has been sent: the events of the emits it is a
    recipient of, oldest first. *)
Definition inbox (conn : SocketId) (log : list Emit) : list Event :=
  map event (List.filter (λ e, bool_decide (conn ∈ recipients e)) log).

(** ** Presence in the browser (SocketContext.jsx, 47-96) *)

Record Presence := {
  onlineUsers : gset ObjectId;
  typingUsers : gmap ObjectId (jsstring * ObjectId)
}.

(** What reaches the listeners of the socket: an event of the server, or
    the [disconnect] of the browser's own socket. *)
Inductive Incoming :=
| from_server (e : Event)
| own_disconnect.

Definition presence_on (i : Incoming) (p : Presence) : Presence :=
  match i with
  | own_disconnect =>
      (* [setOnlineUsers(new Set()); setTypingUsers(new Map())] *)
      {| onlineUsers := ∅; typingUsers := ∅ |}
  | from_server (user_joined_topic u) =>
      {| onlineUsers := onlineUsers p ∪ {[_id u]};
         typingUsers := typingUsers p |}
  | from_server (user_left_topic u) =>
      {| onlineUsers := onlineUsers p ∖ {[_id u]};
         typingUsers := typingUsers p |}
  | from_server (user_typing u t) =>
      {| onlineUsers := onlineUsers p;
         typingUsers := <[_id u := (username u, t)]> (typingUsers p) |}
  | from_server (user_stop_typing u t) =>
      {| onlineUsers := onlineUsers p;
         typingUsers := delete (_id u) (typingUsers p) |}
  | from_server _ => p
  end.

(** Does [i] take user [u] out of [typingUsers]? *)
Definition clears_typing_of (u : User) (i : Incoming) : bool :=
  match i with
  | own_disconnect => true
  | from_server (user_stop_typing u' _) => bool_decide (_id u' = _id u)
  | from_server _ => false
  end.

(** Does [i] write the entry of user [u] in [typingUsers]? *)
Definition sets_typing_of (u : User) (i : Incoming) : bool :=
  match i with
  | from_server (user_typing u' _) => bool_decide (_id u' = _id u)
  | _ => false
  end.

(** ** The message item (MessageItem.jsx) *)

(** [canEdit]: [isOwn && new Date() - createdAt < 15 * 60 * 1000] *)
Definition canEdit (isOwn : bool) (now : Z) (m : Message) : bool :=
  isOwn && (now - createdAt m <? 15 * 60 * 1000)%Z.

(** [isOwn] of MessageList.jsx: [message.sender._id === user?.id] *)
Definition isOwn (u : User) (m : Message) : bool :=
  bool_decide (sender m = _id u).

(** One button of the reaction bar. *)
Record ReactionGroup := {
  group_emoji : jsstring;
  group_count : nat;
  group_users : list ObjectId
}.

(** One step of the [reduce]: the first group with the emoji of the reaction
    is counted up and gets its user, and without such a group a new one is
    pushed at the end. *)
Fixpoint count_reaction (acc : list ReactionGroup) (r : Reaction)
    : list ReactionGroup :=
  match acc with
  | [] => [{| group_emoji := reaction_emoji r; group_count := 1;
              group_users := [reaction_user r] |}]
  | existing :: acc' =>
      if bool_decide (group_emoji existing = reaction_emoji r) then
        {| group_emoji := group_emoji existing;
           group_count := group_count existing + 1;
           group_users := group_users existing ++ [reaction_user r] |} :: acc'
      else existing :: count_reaction acc' r
  end.

(** [message.reactions.reduce(..., [])] *)
Definition reaction_groups (rs : list Reaction) : list ReactionGroup :=
  fold_left count_reaction rs [].

(** The reactions with a given emoji. *)
Definition with_emoji (emoji : jsstring) (rs : list Reaction) : list Reaction :=
  List.filter (λ r, bool_decide (reaction_emoji r = emoji)) rs.

(** ** Sending from the input box (MessageInput.jsx 75-90, ChatContext 62-99) *)

(** The payload of a [send-message] command. *)
Record SendCommand := {
  cmd_content : jsstring;
  cmd_topicId : ObjectId;
  cmd_replyTo : option ObjectId
}.

(** [sendMessage] of the chat context: the command it hands to the socket,
    [None] when it returns [success: false] and sends nothing. *)
Definition chat_sendMessage (currentTopic : option ObjectId)
    (connected hasSocket : bool) (content : jsstring)
    (replyTo : option ObjectId) : option SendCommand :=
  match currentTopic with
  | None => None
  | Some t =>
      if bool_decide (trim content = []) then None
      else if negb connected || negb hasSocket then None
      else Some {| cmd_content := trim content;
                   cmd_topicId := t;
                   cmd_replyTo := replyTo |}
  end.

(** [handleSendMessage] of the input box, for the text [message] in it. *)
Definition handleSendMessage (message : jsstring) (sending : bool)
    (currentTopic : option ObjectId) (connected hasSocket : bool)
    (replyTo : option ObjectId) : option SendCommand :=
  if bool_decide (trim message = []) || sending || negb connected then None
  else chat_sendMessage currentTopic connected hasSocket message replyTo.

(** The messages of an answer of [getMessages]; none when it was refused. *)
Definition page_messages (res : MessagesResponse) : list (ObjectId * Message) :=
  match res with
  | messages_page page _ => page
  | messages_refused _ _ => []
  end.

(** Oldest first. *)
Definition created_earlier (a b : ObjectId * Message) : Prop :=
  (createdAt a.2 ≤ createdAt b.2)%Z.

(** Opening a topic and scrolling up [k] times: [loadMessages(topicId)]
    followed by [k] calls of [loadMoreMessages], on a store that does not
    change in between. *)
Definition load_history (u : User) (topicId : ObjectId) (k : nat) (d : Db)
    (st : ChatState) : ChatState :=
  Nat.iter k (loadMoreMessages u d) (loadMessages u topicId 1 false d st).

(** The chat state of a provider that has loaded nothing yet. *)
Definition chat0 : ChatState :=
  {| chat_messages := []; chat_hasMore := true; chat_currentPage := 1;
     chat_currentTopic := None |}.

(** Three messages in the public topic, written at 1000, 2000 and 3000. *)
Definition db3 : Db :=
  {| topics := topics db0;
     messages :=
       <[7%N := bobs_message]>
         (<[8%N := set_createdAt 2000 bobs_message]>
            (<[9%N := set_createdAt 3000 bobs_message]> ∅)) |}.

(** The state between two loads: the pages 1 to [chat_currentPage] are
    shown, and [chat_hasMore] tells whether older messages remain. *)
Definition loaded (topicId : ObjectId) (d : Db) (st : ChatState) : Prop :=
  chat_currentTopic st = Some topicId
  ∧ (1 ≤ chat_currentPage st)%nat
  ∧ chat_messages st
    = rev (take (chat_currentPage st * 50) (newest_first topicId d))
  ∧ chat_hasMore st
    = (chat_currentPage st * 50 <? length (newest_first topicId d))%nat.

(** What the server has emitted to [conn] between two states, as events. *)
Definition received (conn : SocketId) (srv srv' : Server) : list Event :=
  inbox conn (drop (length (outbox srv)) (outbox srv')).

(** The view of a browser after the events it was sent. *)
Definition chat_after (events : list Event) (prev : list (ObjectId * Message))
    : list (ObjectId * Message) :=
  fold_left (λ view e, chat_on e view) events prev.

(** The presence state of a browser after what its socket brought. *)
Definition presence_after (incoming : list Incoming) (p : Presence) : Presence :=
  fold_left (λ p i, presence_on i p) incoming p.

(** The events of the server as they reach a browser whose own socket
    stays up. *)
Definition sent_to (conn : SocketId) (srv srv' : Server) : list Incoming :=
  from_server <$> received conn srv srv'.

(** The button of the reaction bar for an emoji, if there is one. *)
Definition group_for (emoji : jsstring) (groups : list ReactionGroup)
    : option ReactionGroup :=
  List.find (λ g, bool_decide (group_emoji g = emoji)) groups.

(** The (user, emoji) pair of a reaction. *)
Definition pair_of (r : Reaction) : ObjectId * jsstring :=
  (reaction_user r, reaction_emoji r).

(** Every stored message has at most one reaction per user and emoji. *)
Definition db_reactions_unique (d : Db) : Prop :=
  ∀ messageId m, messages d !! messageId = Some m →
                 NoDup (map pair_of (reactions m)).
(** * Properties *)

(** ** Strings *)

Lemma trimStart_length (s : jsstring) : (length (trimStart s) ≤ length s)%nat.
Proof.
  induction s as [|c s IH]; simpl; [lia|].
  destruct (is_ws c); simpl; lia.
Qed.

Lemma trim_length (s : jsstring) : (length (trim s) ≤ length s)%nat.
Proof.
  unfold trim, trimEnd. rewrite length_rev.
  etransitivity; [apply trimStart_length|].
  rewrite length_rev. apply trimStart_length.
Qed.

Lemma trimStart_clean (s : jsstring) : starts_clean (trimStart s).
Proof.
  induction s as [|c s IH]; simpl; [exact I|].
  destruct (is_ws c) eqn:E; [exact IH | exact E].
Qed.

Lemma trimStart_id (s : jsstring) : starts_clean s → trimStart s = s.
Proof. destruct s as [|c s]; simpl; [done|]. by intros ->. Qed.

Lemma trimStart_split (s : jsstring) : ∃ p, s = p ++ trimStart s.
Proof.
  induction s as [|c s [p IH]]; simpl; [by exists []|].
  destruct (is_ws c); [|by exists []].
  exists (c :: p). simpl. by f_equal.
Qed.

Lemma trimEnd_clean (s : jsstring) : starts_clean s → starts_clean (trimEnd s).
Proof.
  unfold trimEnd. intros Hs.
  destruct (trimStart_split (rev s)) as [p Hp].
  assert (s = rev (trimStart (rev s)) ++ rev p) as Hsplit.
  { rewrite <- rev_app_distr, <- Hp. by rewrite rev_involutive. }
  destruct (rev (trimStart (rev s))) as [|c r]; [exact I|].
  rewrite Hsplit in Hs. exact Hs.
Qed.

(** [trim] is idempotent: the schema setter leaves a trimmed string alone. *)
Lemma trim_idempotent (s : jsstring) : trim (trim s) = trim s.
Proof.
  assert (starts_clean (trim s)) as Hc
    by (apply trimEnd_clean, trimStart_clean).
  unfold trim at 1. rewrite (trimStart_id _ Hc).
  unfold trim, trimEnd. rewrite rev_involutive.
  by rewrite (trimStart_id _ (trimStart_clean _)).
Qed.

(** ** Rooms *)

Lemma live_socket_join (s : Socket) (room r : ObjectId) (srv : Server) :
  live r (socket_join s room srv)
  = if decide (room = r) then {[socket_id s]} ∪ live r srv else live r srv.
Proof.
  unfold live, socket_join. simpl.
  rewrite lookup_insert. case_decide; by subst.
Qed.

Lemma live_emit_to (to : gset SocketId) (e : Event) (r : ObjectId) (srv : Server) :
  live r (emit_to to e srv) = live r srv.
Proof. reflexivity. Qed.

(** ** Joining *)

Lemma hasAccess_spec (t : Topic) (u : User) :
  hasAccess t u = true ↔ isPrivate t = false ∨ _id u ∈ members t.
Proof.
  unfold hasAccess, includes.
  rewrite orb_true_iff, negb_true_iff, bool_decide_eq_true. tauto.
Qed.

Lemma hasAccess_denied (t : Topic) (u : User) :
  hasAccess t u = false ↔ isPrivate t = true ∧ _id u ∉ members t.
Proof.
  unfold hasAccess, includes.
  rewrite orb_false_iff, negb_false_iff, bool_decide_eq_false. tauto.
Qed.

Lemma join_topic_granted (socket : Socket) (topicId : ObjectId) (srv : Server)
    (t : Topic) :
  Topic_findById topicId (db srv) = Some t →
  hasAccess t (user socket) = true →
  joined socket topicId srv (join_topic socket topicId srv).
Proof.
  intros Ht Ha. unfold join_topic. rewrite Ht, Ha. simpl.
  unfold joined. simpl. split_and!.
  - unfold socket_to_emit. rewrite live_emit_to, live_socket_join.
    rewrite decide_True by done. apply elem_of_union_l, elem_of_singleton.
    reflexivity.
  - done.
  - unfold socket_to_emit. simpl. rewrite live_socket_join.
    rewrite decide_True by done. do 3 f_equal.
    apply set_eq. intros conn.
    rewrite !elem_of_difference, elem_of_union. tauto.
Qed.

(** C2: on a private room a join by a user outside the durable [members]
    fails with the access-denied error and leaves the rooms alone, a join by
    a member succeeds, and a public room is joinable by anyone. *)
Theorem join_topic_private_access (socket : Socket) (topicId : ObjectId)
    (srv : Server) (t : Topic) :
  Topic_findById topicId (db srv) = Some t →
  (isPrivate t = true → _id (user socket) ∉ members t →
     access_denied socket srv (join_topic socket topicId srv)
     ∧ live topicId (join_topic socket topicId srv).2 = live topicId srv)
  ∧ (isPrivate t = true → _id (user socket) ∈ members t →
       joined socket topicId srv (join_topic socket topicId srv))
  ∧ (isPrivate t = false →
       joined socket topicId srv (join_topic socket topicId srv)).
Proof.
  intros Ht. split_and!.
  - intros Hp Hm.
    assert (hasAccess t (user socket) = false) as Ha
      by (apply hasAccess_denied; done).
    unfold join_topic. rewrite Ht, Ha. simpl.
    unfold access_denied. simpl. done.
  - intros _ Hm. eapply join_topic_granted; [done|].
    apply hasAccess_spec. by right.
  - intros Hp. eapply join_topic_granted; [done|].
    apply hasAccess_spec. by left.
Qed.

(** Bob is refused at alice's private topic, alice gets in, and bob gets
    into the public one. *)
Lemma join_topic_private_access_witness :
  access_denied bob_socket server0 (join_topic bob_socket 20%N server0)
  ∧ joined alice_socket 20%N server0 (join_topic alice_socket 20%N server0)
  ∧ joined bob_socket 10%N server0 (join_topic bob_socket 10%N server0).
Proof.
  destruct (join_topic_private_access bob_socket 20%N server0 backroom eq_refl)
    as (Hdenied & _ & _).
  destruct (join_topic_private_access alice_socket 20%N server0 backroom eq_refl)
    as (_ & Hmember & _).
  destruct (join_topic_private_access bob_socket 10%N server0 lobby eq_refl)
    as (_ & _ & Hpublic).
  split_and!.
  - apply Hdenied; [reflexivity|].
    apply (bool_decide_eq_false_1 (2%N ∈ [1%N])). reflexivity.
  - apply Hmember; [reflexivity|].
    apply (bool_decide_eq_true_1 (1%N ∈ [1%N])). reflexivity.
  - apply Hpublic. reflexivity.
Defined.

(** ** Sending *)

Lemma trim_nil_of_nil (s : jsstring) : s = [] → trim s = [].
Proof. by intros ->. Qed.

Lemma sent_content_valid (c : jsstring) :
  trim c ≠ [] → (length c ≤ 1000)%nat → content_valid (trim (trim c)) = true.
Proof.
  intros Hne Hlen. rewrite trim_idempotent. unfold content_valid.
  rewrite bool_decide_eq_false_2 by done. simpl.
  apply Nat.leb_le. pose proof (trim_length c). lia.
Qed.

(** What a send that passes the checks does: it saves the document under
    [newId], touches the topic and emits [new-message] to the whole room. *)
Lemma send_message_sendable (socket : Socket) (c : jsstring) (topicId : ObjectId)
    (reply : option ObjectId) (newId : ObjectId) (now now' : Z) (srv : Server)
    (t : Topic) :
  trim c ≠ [] → (length c ≤ 1000)%nat →
  Topic_findById topicId (db srv) = Some t →
  hasAccess t (user socket) = true →
  send_message socket c topicId reply newId now now' srv
  = io_in_emit topicId (new_message newId (sent_message socket c topicId reply now))
      (set_db (Topic_touch topicId t now'
                 {| topics := topics (db srv);
                    messages := <[newId := sent_message socket c topicId reply now]>
                                  (messages (db srv)) |}) srv).
Proof.
  intros Hne Hlen Ht Ha. unfold send_message.
  assert (c ≠ []) as Hc by (intros ->; by apply Hne).
  rewrite (bool_decide_eq_false_2 _ Hc), (bool_decide_eq_false_2 _ Hne). simpl.
  destruct (Nat.ltb_spec 1000 (length c)) as [?|_]; [lia|].
  rewrite Ht, Ha. simpl.
  unfold Message_save, set_createdAt, Message_new. simpl.
  rewrite (sent_content_valid c Hne Hlen).
  unfold sent_message. by rewrite trim_idempotent.
Qed.

(** Every other run of the handler ends in one [message-error] to the
    caller and changes nothing else. *)
Lemma send_message_cases (socket : Socket) (c : jsstring) (topicId : ObjectId)
    (reply : option ObjectId) (newId : ObjectId) (now now' : Z) (srv : Server) :
  sendable socket c topicId srv
  ∨ ∃ e, send_message socket c topicId reply newId now now' srv
         = socket_emit socket (message_error e) srv.
Proof.
  unfold send_message.
  destruct (bool_decide (c = []) || bool_decide (trim c = [])) eqn:Hempty;
    [right; eauto|].
  apply orb_false_iff in Hempty as [_ Hne%bool_decide_eq_false].
  destruct (Nat.ltb_spec 1000 (length c)) as [?|Hlen]; [right; eauto|].
  destruct (Topic_findById topicId (db srv)) as [t|] eqn:Ht; [|right; eauto].
  destruct (hasAccess t (user socket)) eqn:Ha; [|right; eauto].
  left. unfold sendable. eauto.
Qed.

Lemma emitted_inj (to to' : gset SocketId) (e e' : Event) (srv srv' : Server) :
  emitted to e srv srv' → emitted to' e' srv srv' → to = to' ∧ e = e'.
Proof.
  unfold emitted. intros -> [_ [=]]%app_inj_tail. done.
Qed.




(** C3 (as amended): [send-message] never reads [socket.currentTopic].  A
    connection that has joined nothing is not turned away: when the content
    passes and the topic of the command is open to the sender, the message
    is saved and broadcast to that topic's room. *)
Theorem send_message_ignores_currentTopic (socket : Socket) (c : jsstring)
    (topicId : ObjectId) (reply : option ObjectId) (newId : ObjectId)
    (now now' : Z) (srv : Server) :
  currentTopic socket = None →
  sendable socket c topicId srv →
  Message_findById newId
    (db (send_message socket c topicId reply newId now now' srv))
  = Some (sent_message socket c topicId reply now)
  ∧ emitted (live topicId srv)
      (new_message newId (sent_message socket c topicId reply now)) srv
      (send_message socket c topicId reply newId now now' srv)
  ∧ ∀ joinedRoom,
      send_message (set_currentTopic joinedRoom socket) c topicId reply
        newId now now' srv
      = send_message socket c topicId reply newId now now' srv.
Proof.
  intros _ (Hne & Hlen & t & Ht & Ha).
  split_and!; [| |reflexivity];
    rewrite (send_message_sendable _ _ _ _ _ _ _ _ t Hne Hlen Ht Ha).
  - unfold Message_findById. simpl. apply lookup_insert_eq.
  - reflexivity.
Qed.

Lemma carol_sendable : sendable carol_socket (js "hello") 10%N server1.
Proof.
  split_and!; [discriminate | vm_compute; lia |].
  exists lobby. split; reflexivity.
Defined.

Lemma send_message_ignores_currentTopic_witness :
  Message_findById 8%N
    (db (send_message carol_socket (js "hello") 10%N None 8%N 60 61 server1))
  = Some (sent_message carol_socket (js "hello") 10%N None 60)
  ∧ emitted (live 10%N server1)
      (new_message 8%N (sent_message carol_socket (js "hello") 10%N None 60))
      server1
      (send_message carol_socket (js "hello") 10%N None 8%N 60 61 server1)
  ∧ ∀ joinedRoom,
      send_message (set_currentTopic joinedRoom carol_socket) (js "hello")
        10%N None 8%N 60 61 server1
      = send_message carol_socket (js "hello") 10%N None 8%N 60 61 server1.
Proof.
  apply (send_message_ignores_currentTopic carol_socket (js "hello") 10%N None
           8%N 60 61 server1 eq_refl carol_sendable).
Defined.

(** The claim as stated fails: carol's connection has no joined room, yet
    her send is not refused: the message is stored under id 8 and alice's
    connection 100 receives it. *)
Lemma send_message_not_joined_counterexample :
  currentTopic carol_socket = None
  ∧ Message_findById 8%N
      (db (send_message carol_socket (js "hello") 10%N None 8%N 60 61 server1))
    = Some (sent_message carol_socket (js "hello") 10%N None 60)
  ∧ outbox (send_message carol_socket (js "hello") 10%N None 8%N 60 61 server1)
    = [{| recipients := {[100%N]};
          event := new_message 8%N
                     (sent_message carol_socket (js "hello") 10%N None 60) |}].
Proof. split_and!; reflexivity. Qed.

(** Two servers that last emitted different things are different. *)
Ltac clash H :=
  apply (f_equal outbox) in H; simpl in H;
  apply app_inj_tail in H as [_ H]; simplify_eq.

(** C9 (as amended): [send-message] answers with a content error exactly
    when the trimmed content is empty or the content as sent, before
    trimming, is longer than 1000; every other content is accepted, and what
    is saved is the trimmed content. *)
Theorem send_message_content_validation (socket : Socket) (c : jsstring)
    (topicId : ObjectId) (reply : option ObjectId) (newId : ObjectId)
    (now now' : Z) (srv : Server) :
  (InvalidContent socket srv
     (send_message socket c topicId reply newId now now' srv)
   ↔ trim c = [] ∨ (1000 < length c)%nat)
  ∧ (trim c ≠ [] → (length c ≤ 1000)%nat →
     ∀ t, Topic_findById topicId (db srv) = Some t →
          hasAccess t (user socket) = true →
          ∃ m, Message_findById newId
                 (db (send_message socket c topicId reply newId now now' srv))
               = Some m
               ∧ content m = trim c
               ∧ emitted (live topicId srv) (new_message newId m) srv
                   (send_message socket c topicId reply newId now now' srv)).
Proof.
  split.
  - split.
    + intros Hinv.
      destruct (decide (trim c = [])) as [|Hne]; [by left|].
      destruct (Nat.ltb_spec 1000 (length c)) as [?|Hlen]; [by right|].
      exfalso. revert Hinv. unfold InvalidContent, send_message.
      assert (c ≠ []) as Hc by (intros ->; by apply Hne).
      rewrite (bool_decide_eq_false_2 _ Hc), (bool_decide_eq_false_2 _ Hne).
      simpl. destruct (Nat.ltb_spec 1000 (length c)) as [?|_]; [lia|].
      destruct (Topic_findById topicId (db srv)) as [t|];
        [|intros [H|H]; clash H].
      destruct (hasAccess t (user socket)); simpl; [|intros [H|H]; clash H].
      unfold Message_save.
      destruct (content_valid _); intros [H|H]; clash H.
    + unfold InvalidContent, send_message. intros [He|Hlong].
      * rewrite (bool_decide_eq_true_2 _ He), orb_true_r. by left.
      * destruct (bool_decide (c = []) || bool_decide (trim c = []));
          [by left|].
        destruct (Nat.ltb_spec 1000 (length c)) as [_|?]; [by right|lia].
  - intros Hne Hlen t Ht Ha.
    rewrite (send_message_sendable _ _ _ _ _ _ _ _ t Hne Hlen Ht Ha).
    exists (sent_message socket c topicId reply now). split_and!.
    + unfold Message_findById. simpl. apply lookup_insert_eq.
    + reflexivity.
    + reflexivity.
Qed.

(** The claim as stated fails: [padded] trims to a single letter, a length
    inside 1..1000, and alice may write to the public topic, yet the send is
    refused as too long because the 1001 code units before trimming are what
    the handler measures. *)
Lemma send_message_padded_counterexample :
  length (trim padded) = 1%nat
  ∧ send_message alice_socket padded 10%N None 9%N 70 71 server1
    = socket_emit alice_socket
        (message_error "Message too long (max 1000 characters)") server1.
Proof. split; vm_compute; reflexivity. Qed.

Lemma send_message_content_validation_witness :
  ∃ m, Message_findById 9%N
         (db (send_message alice_socket (js "  hi ") 10%N None 9%N 70 71 server1))
       = Some m
       ∧ content m = js "hi".
Proof.
  destruct (send_message_content_validation alice_socket (js "  hi ") 10%N None
              9%N 70 71 server1) as [_ Hok].
  destruct (Hok ltac:(discriminate) ltac:(vm_compute; lia) lobby eq_refl eq_refl)
    as (m & Hm & Hc & _).
  exists m. split; [exact Hm | exact Hc].
Defined.

(** ** Joining a second room *)

(** C4 (as amended): a successful join adds the connection to the live set
    of the new room, makes that room its current topic and tells the rest of
    that room; it leaves nothing.  The live set of every other room is as it
    was, so the connection stays in the room it had joined before, and
    the one emit of the join is [user-joined-topic]: no [user-left-topic]. *)
Theorem join_topic_keeps_previous_room (socket : Socket) (topicId : ObjectId)
    (srv : Server) (t : Topic) :
  Topic_findById topicId (db srv) = Some t →
  hasAccess t (user socket) = true →
  joined socket topicId srv (join_topic socket topicId srv)
  ∧ (∀ room, room ≠ topicId →
       live room (join_topic socket topicId srv).2 = live room srv)
  ∧ (∀ previous, currentTopic socket = Some previous →
       socket_id socket ∈ live previous srv →
       socket_id socket ∈ live previous (join_topic socket topicId srv).2).
Proof.
  intros Ht Ha. split; [by eapply join_topic_granted|].
  unfold join_topic. rewrite Ht, Ha. simpl. unfold socket_to_emit.
  split.
  - intros room Hne. rewrite live_emit_to, live_socket_join.
    by rewrite decide_False.
  - intros previous _ Hin. rewrite live_emit_to, live_socket_join.
    case_decide; set_solver.
Qed.

(** Alice, live in the public topic, joins her private one and is then live
    in both. *)
Lemma join_topic_keeps_previous_room_witness :
  socket_id alice_socket
  ∈ live 10%N (join_topic (set_currentTopic (Some 10%N) alice_socket) 20%N server1).2.
Proof.
  destruct (join_topic_keeps_previous_room
              (set_currentTopic (Some 10%N) alice_socket) 20%N server1 backroom
              eq_refl eq_refl) as (_ & _ & Hstay).
  apply (Hstay 10%N eq_refl).
  apply elem_of_singleton. reflexivity.
Defined.

(** The claim as stated fails: alice joins the public topic, where bob is,
    and then her private one.  She ends up in both live sets, and the log
    holds the two join notices and no [user-left-topic]. *)
Lemma join_topic_two_rooms_counterexample :
  let first := join_topic alice_socket 10%N server_bob in
  let second := join_topic first.1 20%N first.2 in
  currentTopic first.1 = Some 10%N
  ∧ currentTopic second.1 = Some 20%N
  ∧ live 10%N second.2 = {[100%N; 200%N]}
  ∧ live 20%N second.2 = {[100%N]}
  ∧ outbox second.2
    = [{| recipients := {[200%N]}; event := user_joined_topic alice |};
       {| recipients := ∅; event := user_joined_topic alice |}].
Proof. vm_compute. split_and!; reflexivity. Qed.

(** ** Deleting *)

(** C6 (as amended): for a stored message whose topic exists,
    [deleteMessage] answers 200 exactly when the caller is the sender or is
    among the topic's admins, and 403 "Not authorized" otherwise, leaving
    the store alone; on success the message is gone from the store and every
    other message is kept.  No event is emitted to anyone: the rooms and the
    log of emits are those from before the request. *)
Theorem deleteMessage_authorization (u : User) (messageId : ObjectId)
    (srv : Server) (m : Message) (t : Topic) :
  Message_findById messageId (db srv) = Some m →
  Topic_findById (topic m) (db srv) = Some t →
  let res := http (deleteMessage u messageId) srv in
  (status res.1 = 200%nat ↔ may_delete u m t)
  ∧ (¬ may_delete u m t →
       res.1 = json 403 (msg "Not authorized to delete this message")
       ∧ db res.2 = db srv)
  ∧ (may_delete u m t →
       res.1 = json 200 (ok_text "Message deleted successfully")
       ∧ Message_findById messageId (db res.2) = None
       ∧ ∀ other, other ≠ messageId →
           Message_findById other (db res.2) = Message_findById other (db srv))
  ∧ outbox res.2 = outbox srv
  ∧ rooms res.2 = rooms srv.
Proof.
  intros Hm Ht. unfold http, deleteMessage. rewrite Hm, Ht. cbv zeta.
  unfold may_delete, includes.
  destruct (decide (sender m = _id u)) as [Ho|Ho];
    [rewrite (bool_decide_eq_true_2 _ Ho)|rewrite (bool_decide_eq_false_2 _ Ho)];
    simpl.
  - split_and!; [naive_solver|naive_solver| |done|done].
    intros _. split_and!; [done|apply lookup_delete_eq|].
    intros other Hne. unfold Message_findById. simpl.
    by apply lookup_delete_ne.
  - destruct (decide (_id u ∈ admins t)) as [Ha|Ha];
      [rewrite (bool_decide_eq_true_2 _ Ha)|rewrite (bool_decide_eq_false_2 _ Ha)];
      simpl.
    + split_and!; [naive_solver|naive_solver| |done|done].
      intros _. split_and!; [done|apply lookup_delete_eq|].
      intros other Hne. unfold Message_findById. simpl.
      by apply lookup_delete_ne.
    + split_and!; [|done| |done|done].
      * split; [discriminate|]. intros [|]; done.
      * intros [|]; done.
Qed.

(** Bob deletes his own message. *)
Lemma deleteMessage_authorization_witness :
  (http (deleteMessage bob 7%N) server2).1
  = json 200 (ok_text "Message deleted successfully")
  ∧ Message_findById 7%N (db (http (deleteMessage bob 7%N) server2).2) = None.
Proof.
  destruct (deleteMessage_authorization bob 7%N server2 bobs_message lobby
              eq_refl eq_refl) as (_ & _ & Hok & _).
  destruct (Hok (or_introl eq_refl)) as (Hres & Hgone & _).
  split; [exact Hres | exact Hgone].
Defined.

(** The claim as stated fails: bob deletes his message while alice and bob
    are live in its room.  The request succeeds and the message is gone, but
    nothing was emitted: the log is still empty. *)
Lemma deleteMessage_no_event_counterexample :
  live 10%N server2 = {[100%N; 200%N]}
  ∧ (http (deleteMessage bob 7%N) server2).1
    = json 200 (ok_text "Message deleted successfully")
  ∧ Message_findById 7%N (db (http (deleteMessage bob 7%N) server2).2) = None
  ∧ outbox (http (deleteMessage bob 7%N) server2).2 = [].
Proof. vm_compute. split_and!; reflexivity. Qed.

(** ** Editing *)

Lemma content_valid_spec (c : jsstring) :
  content_valid c = true ↔ c ≠ [] ∧ (length c ≤ 1000)%nat.
Proof.
  unfold content_valid. rewrite andb_true_iff, negb_true_iff.
  rewrite bool_decide_eq_false, Nat.leb_le. done.
Qed.

(** C8 (as amended): for the author of a stored message, [editMessage]
    answers 400 "Message is too old to edit" exactly when [now - createdAt]
    exceeds fifteen minutes; so an edit 14:59 after creation is inside the
    window and one at 15:01 is refused.  An edit inside the window succeeds
    exactly when the schema accepts the new content, that is when the
    content, trimmed, is not empty and not longer than 1000; otherwise it
    is answered with 500 and nothing is stored.  Every successful edit
    stores the message with the new content (as the schema stores it,
    trimmed), [isEdited] true and [editedAt] the time of the edit, all else
    as before. *)
Theorem editMessage_window (u : User) (messageId : ObjectId) (c : jsstring)
    (now now' : Z) (d : Db) (m : Message) :
  Message_findById messageId d = Some m →
  sender m = _id u →
  ((editMessage u messageId c now now' d).1
     = json 400 (msg "Message is too old to edit")
   ↔ (now - createdAt m > fifteenMinutes)%Z)
  ∧ ((now = createdAt m + (14 * 60 + 59) * 1000)%Z →
     content_valid (trim c) = true →
     status (editMessage u messageId c now now' d).1 = 200%nat)
  ∧ ((now = createdAt m + (15 * 60 + 1) * 1000)%Z →
     editMessage u messageId c now now' d
     = (json 400 (msg "Message is too old to edit"), d))
  ∧ ((now - createdAt m ≤ fifteenMinutes)%Z →
     content_valid (trim c) = true →
     status (editMessage u messageId c now now' d).1 = 200%nat)
  ∧ ((now - createdAt m ≤ fifteenMinutes)%Z →
     (status (editMessage u messageId c now now' d).1 = 200%nat
      ↔ content_valid (trim c) = true)
     ∧ (content_valid (trim c) = false →
        editMessage u messageId c now now' d = (json 500 thrown, d)))
  ∧ (content_valid (trim c) = true
     ↔ trim c ≠ [] ∧ (length (trim c) ≤ 1000)%nat)
  ∧ (status (editMessage u messageId c now now' d).1 = 200%nat →
     editMessage u messageId c now now' d
     = (json 200 (ok_message (edited m (trim c) now')),
        {| topics := topics d;
           messages := <[messageId := edited m (trim c) now']> (messages d) |})
     ∧ content (edited m (trim c) now') = trim c
     ∧ (trim c = c → content (edited m (trim c) now') = c)
     ∧ isEdited (edited m (trim c) now') = true
     ∧ editedAt (edited m (trim c) now') = Some now').
Proof.
  intros Hm Hs.
  assert (content_valid (trim c) = true
          ↔ trim c ≠ [] ∧ (length (trim c) ≤ 1000)%nat) as Hvalid
    by apply content_valid_spec.
  unfold editMessage. rewrite Hm.
  rewrite (bool_decide_eq_true_2 _ Hs). simpl. unfold fifteenMinutes.
  destruct (Z.ltb_spec (createdAt m) (now - 15 * 60 * 1000)) as [Hold|Hin].
  - split_and!; [split; [lia|done] |lia|done|lia|lia|done|discriminate].
  - unfold Message_save. simpl.
    assert (∀ r : Response * Db,
              r.1 ≠ json 400 (msg "Message is too old to edit") →
              r.1 = json 400 (msg "Message is too old to edit") ↔
              (now - createdAt m > 15 * 60 * 1000)%Z) as Hiff
      by (intros r Hr; split; [done|lia]).
    destruct (content_valid (trim c)) eqn:Hv.
    + split_and!; [by apply Hiff|done|lia|done| |done|].
      * intros _. split; [done|discriminate].
      * intros _. split_and!; [done|done| |done|done].
        simpl. by intros ->.
    + split_and!; [by apply Hiff|done|lia|done| |done|discriminate].
      intros _. split; [|done]. split; discriminate.
Qed.

(** Bob edits his message 14:59 after he wrote it. *)
Lemma editMessage_window_witness :
  editMessage bob 7%N (js "hello there") (1000 + (14 * 60 + 59) * 1000) 900100 db1
  = (json 200 (ok_message (edited bobs_message (js "hello there") 900100)),
     {| topics := topics db1;
        messages := <[7%N := edited bobs_message (js "hello there") 900100]>
                      (messages db1) |}).
Proof.
  destruct (editMessage_window bob 7%N (js "hello there")
              (1000 + (14 * 60 + 59) * 1000) 900100 db1 bobs_message
              eq_refl eq_refl) as (_ & Hin & _ & _ & _ & _ & Hok).
  destruct (Hok (Hin eq_refl eq_refl)) as [Hres _].
  exact Hres.
Defined.

(** The claim as stated fails: bob edits his own message 14:59 after he
    wrote it, but to blanks.  The schema trims the content and then misses
    it, [save] throws, and the answer is 500 with the message as it was. *)
Lemma editMessage_blank_counterexample :
  editMessage bob 7%N (js "   ") (1000 + (14 * 60 + 59) * 1000) 900100 db1
  = (json 500 thrown, db1)
  ∧ sender bobs_message = _id bob
  ∧ Message_findById 7%N db1 = Some bobs_message
  ∧ createdAt bobs_message = 1000%Z.
Proof. split_and!; reflexivity. Qed.

(** ** Typing *)

Lemma difference_empty_l (X : gset SocketId) : (∅ : gset SocketId) ∖ X = ∅.
Proof.
  apply set_eq. intros x. rewrite elem_of_difference.
  split; [intros [[]%not_elem_of_empty _] | intros []%not_elem_of_empty].
Qed.

Lemma live_socket_leave (s : Socket) (room r : ObjectId) (srv : Server) :
  live r (socket_leave s room srv)
  = if decide (room = r) then live r srv ∖ {[socket_id s]} else live r srv.
Proof.
  unfold socket_leave, live.
  destruct (decide (room = r)) as [->|Hne].
  - destruct (rooms srv !! r) as [sockets|] eqn:Hroom; simpl.
    + destruct (decide (sockets ∖ {[socket_id s]} = ∅)) as [Hempty|Hfull]; simpl.
      * by rewrite lookup_delete_eq, Hempty.
      * by rewrite lookup_insert_eq.
    + rewrite Hroom. simpl. by rewrite difference_empty_l.
  - destruct (rooms srv !! room) as [sockets|] eqn:Hroom; [|done].
    destruct (decide (sockets ∖ {[socket_id s]} = ∅)); simpl.
    + by rewrite lookup_delete_ne.
    + by rewrite lookup_insert_ne.
Qed.

Lemma live_leaveAll (s : Socket) (r : ObjectId) (srv : Server) :
  live r (leaveAll s srv) = live r srv ∖ {[socket_id s]}.
Proof.
  unfold leaveAll, live. simpl. rewrite lookup_omap.
  destruct (rooms srv !! r) as [sockets|]; simpl.
  - case_decide as Hempty; simpl; [by rewrite Hempty | done].
  - by rewrite difference_empty_l.
Qed.


Lemma stop_typing_emits_emit_to (to : gset SocketId) (e : Event) (srv : Server) :
  stop_typing_emits (emit_to to e srv)
  = stop_typing_emits srv
    ++ (if is_stop_typing {| recipients := to; event := e |}
        then [{| recipients := to; event := e |}] else []).
Proof.
  unfold stop_typing_emits, emit_to. simpl.
  rewrite List.filter_app. simpl. by destruct (is_stop_typing _).
Qed.

Lemma stop_typing_emits_set_rooms (r : gmap ObjectId (gset SocketId)) (srv : Server) :
  stop_typing_emits (set_rooms r srv) = stop_typing_emits srv.
Proof. reflexivity. Qed.

(** The server side of [leave-topic] emits no [user-stop-typing]. *)
Lemma leave_topic_no_stop_typing (s : Socket) (t : ObjectId) (srv : Server) :
  stop_typing_emits (leave_topic s t srv).2 = stop_typing_emits srv.
Proof.
  unfold leave_topic, socket_to_emit. simpl.
  rewrite stop_typing_emits_emit_to. simpl. rewrite app_nil_r.
  unfold socket_leave. destruct (rooms srv !! t); [|done].
  by case_decide.
Qed.

(** Nor does [disconnect]. *)
Lemma disconnect_no_stop_typing (s : Socket) (srv : Server) :
  stop_typing_emits (disconnect s srv) = stop_typing_emits srv.
Proof.
  unfold disconnect, socket_to_emit. destruct (currentTopic s); [|done].
  rewrite stop_typing_emits_emit_to. simpl. by rewrite app_nil_r.
Qed.

Lemma join_topic_no_stop_typing (s : Socket) (t : ObjectId) (srv : Server) :
  stop_typing_emits (join_topic s t srv).2 = stop_typing_emits srv.
Proof.
  unfold join_topic, socket_emit, socket_to_emit.
  destruct (Topic_findById t (db srv)) as [tp|]; simpl.
  - destruct (hasAccess tp (user s)); simpl;
      rewrite stop_typing_emits_emit_to; simpl; by rewrite app_nil_r.
  - rewrite stop_typing_emits_emit_to. simpl. by rewrite app_nil_r.
Qed.

Lemma typing_start_no_stop_typing (s : Socket) (t : ObjectId) (srv : Server) :
  stop_typing_emits (typing_start s t srv) = stop_typing_emits srv.
Proof.
  unfold typing_start, socket_to_emit.
  rewrite stop_typing_emits_emit_to. simpl. by rewrite app_nil_r.
Qed.

Lemma typing_stop_stop_typing (s : Socket) (t : ObjectId) (srv : Server) :
  stop_typing_emits (typing_stop s t srv)
  = stop_typing_emits srv
    ++ [{| recipients := live t srv ∖ {[socket_id s]};
           event := user_stop_typing (user s) t |}].
Proof.
  unfold typing_stop, socket_to_emit. by rewrite stop_typing_emits_emit_to.
Qed.

(** Commands other than [typing-stop] are answered without a
    [user-stop-typing]. *)
Lemma deliver_no_stop_typing (sent : list Command) (s : Socket) (srv : Server) :
  forallb (λ cmd, negb (is_typing_stop_command cmd)) sent = true →
  stop_typing_emits (deliver sent (s, srv)).2 = stop_typing_emits srv.
Proof.
  revert s srv. induction sent as [|cmd sent IH]; intros s srv Hq; [done|].
  simpl in Hq. apply andb_true_iff in Hq as [Hcmd Hq].
  change (deliver (cmd :: sent) (s, srv))
    with (deliver sent (receive cmd (s, srv))).
  destruct cmd as [t|t|t|t]; [| | |done].
  - pose proof (join_topic_no_stop_typing s t srv) as Hj. simpl.
    destruct (join_topic s t srv) as [s' srv'].
    by rewrite (IH s' srv' Hq).
  - pose proof (leave_topic_no_stop_typing s t srv) as Hl. simpl.
    destruct (leave_topic s t srv) as [s' srv'].
    by rewrite (IH s' srv' Hq).
  - simpl. rewrite (IH _ _ Hq). apply typing_start_no_stop_typing.
Qed.

Lemma handleTypingStop_at_rest (r : Render) (i : MessageInput) :
  isTypingRef i = false →
  handleTypingStop r i
  = ({| isTypingRef := false; typingTimeoutRef := None |}, []).
Proof.
  intros Hi. unfold handleTypingStop. rewrite Hi.
  by destruct (chatTopic r).
Qed.

Lemma unmount_at_rest (c : Client) :
  isTypingRef (input c) = false →
  isTypingRef (unmount c).1 = false ∧ (unmount c).2 = [].
Proof.
  intros Hi. unfold unmount. destruct (mounted c) as [first|]; [|done].
  by rewrite handleTypingStop_at_rest.
Qed.

(** Handing over commands that hold no [typing-stop] keeps a browser at
    rest and puts no [user-stop-typing] on the wire. *)
Lemma transmit_at_rest (sent : list Command) (c : Client) (srv : Server) :
  at_rest c →
  forallb (λ cmd, negb (is_typing_stop_command cmd)) sent = true →
  at_rest (transmit sent c srv).1
  ∧ stop_typing_emits (transmit sent c srv).2 = stop_typing_emits srv.
Proof.
  intros [Hi Hb] Hq. unfold transmit.
  destruct (connected (latest c)).
  - pose proof (deliver_no_stop_typing sent (socket c) srv Hq) as Hd.
    destruct (deliver sent (socket c, srv)) as [s' srv']. simpl in *.
    split; [by split|done].
  - simpl. split; [|done]. split; [done|]. simpl.
    by rewrite forallb_app, Hb, Hq.
Qed.

Lemma area_rerun_at_rest (r : Render) (c : Client) :
  at_rest c →
  at_rest (area_rerun r c).1
  ∧ forallb (λ cmd, negb (is_typing_stop_command cmd)) (area_rerun r c).2
    = true.
Proof.
  intros [Hi Hb]. unfold area_rerun.
  destruct (chatArea c) as [e|]; [|by split].
  destruct (unmount_at_rest c Hi) as [Hi' Hsent].
  destruct (unmount c) as [i stopped]. simpl in *. subst stopped.
  split; [by split|].
  by destruct (areaConnected e), (connected r).
Qed.

(** A browser at rest stays at rest, and is the cause of no
    [user-stop-typing], for as long as nothing is typed. *)
Lemma step_at_rest (tr : Trigger) (c : Client) (srv : Server) :
  at_rest c → no_typing tr →
  at_rest (step tr (c, srv)).1
  ∧ stop_typing_emits (step tr (c, srv)).2 = stop_typing_emits srv.
Proof.
  intros Hrest Hno. pose proof Hrest as [Hi Hb].
  destruct tr as [| | | | |id|ok]; [done| | | | | |]; simpl.
  - destruct (typingTimeoutRef (input c)) as [r|]; [|done].
    rewrite (handleTypingStop_at_rest r _ Hi).
    by apply transmit_at_rest.
  - destruct (typable c); [|done].
    rewrite (handleTypingStop_at_rest _ _ Hi).
    by apply transmit_at_rest.
  - destruct (chatArea c) as [e|]; [|done].
    destruct (unmount_at_rest c Hi) as [Hi' Hsent].
    destruct (unmount c) as [i stopped]. simpl in *. subst stopped.
    apply transmit_at_rest; [by split|].
    simpl. by destruct (areaConnected e).
  - destruct (connected (latest c)); [|done].
    destruct (area_rerun_at_rest
                {| connected := false; chatTopic := chatTopic (latest c) |}
                c Hrest) as [Hrest' Hsent].
    destruct (area_rerun _ c) as [c' sent]. simpl in *.
    destruct (transmit_at_rest sent c' (disconnect (socket c') srv)
                Hrest' Hsent) as [? ->].
    split; [done|apply disconnect_no_stop_typing].
  - destruct (connected (latest c)); [done|].
    pose proof (deliver_no_stop_typing (sendBuffer c)
                  {| socket_id := id; user := user (socket c);
                     currentTopic := None |} srv Hb) as Hd.
    destruct (deliver (sendBuffer c) _) as [s' srv']. simpl in Hd.
    match goal with
    | |- context [area_rerun ?r ?c0] =>
        destruct (area_rerun_at_rest r c0) as [Hrest' Hsent]; [by split|];
        destruct (area_rerun r c0) as [c' sent]
    end.
    simpl in *.
    destruct (transmit_at_rest sent c' srv' Hrest' Hsent) as [? ->].
    by split.
  - destruct (chatArea c) as [e|]; [|done].
    destruct (mounted c); simpl; by split.
Qed.

Lemma run_cons (tr : Trigger) (trs : list Trigger) (st : Client * Server) :
  run (tr :: trs) st = run trs (step tr st).
Proof. reflexivity. Qed.

Lemma run_at_rest (c : Client) (srv : Server) (trs : list Trigger) :
  at_rest c → Forall no_typing trs →
  stop_typing_emits (run trs (c, srv)).2 = stop_typing_emits srv.
Proof.
  intros Hrest Hall. revert c srv Hrest.
  induction Hall as [|tr trs Htr _ IH]; intros c srv Hrest; [done|].
  rewrite run_cons.
  destruct (step_at_rest tr c srv Hrest Htr) as [Hrest' Hsame].
  destruct (step tr (c, srv)) as [c' srv']. simpl in *.
  rewrite (IH c' srv' Hrest'). exact Hsame.
Qed.

(** While the connection is down nothing reaches the server: what the
    browser hands to its socket waits in the send buffer. *)
Lemma step_down (tr : Trigger) (c : Client) (srv : Server) :
  connected (latest c) = false → stays_down tr →
  connected (latest (step tr (c, srv)).1) = false
  ∧ (step tr (c, srv)).2 = srv.
Proof.
  intros Hc Hdown.
  destruct tr as [| | | | |id|ok]; simpl.
  - unfold typable. rewrite Hc. by destruct (mounted c), (chatTopic (latest c)).
  - destruct (typingTimeoutRef (input c)) as [r|]; [|done].
    destruct (handleTypingStop r (input c)) as [i sent].
    unfold transmit. simpl. by rewrite Hc.
  - unfold typable. rewrite Hc. by destruct (mounted c), (chatTopic (latest c)).
  - destruct (chatArea c) as [e|]; [|done].
    destruct (unmount c) as [i stopped].
    unfold transmit. simpl. by rewrite Hc.
  - by rewrite Hc.
  - by destruct (Hdown id).
  - destruct (chatArea c) as [e|]; [|done].
    destruct ok, (mounted c); simpl; by rewrite ?Hc.
Qed.

Lemma run_down (c : Client) (srv : Server) (trs : list Trigger) :
  connected (latest c) = false → Forall stays_down trs →
  (run trs (c, srv)).2 = srv.
Proof.
  intros Hc Hall. revert c srv Hc.
  induction Hall as [|tr trs Htr _ IH]; intros c srv Hc; [done|].
  rewrite run_cons.
  destruct (step_down tr c srv Hc Htr) as [Hc' Hsame].
  destruct (step tr (c, srv)) as [c' srv']. simpl in *.
  rewrite (IH c' srv' Hc'). exact Hsame.
Qed.

Lemma live_leave_topic (s : Socket) (t r : ObjectId) (srv : Server) :
  live r (leave_topic s t srv).2
  = if decide (t = r) then live r srv ∖ {[socket_id s]} else live r srv.
Proof.
  unfold leave_topic, socket_to_emit. simpl.
  by rewrite live_emit_to, live_socket_leave.
Qed.

(** The first of the browser's own endings of a typing entry, on a
    connection that is up. *)
Lemma first_ending (tr : Trigger) (s : Socket) (t : ObjectId) (srv : Server) :
  ends_typing tr →
  at_rest (step tr (step keystroke (fresh_client s t, srv))).1
  ∧ stop_typing_emits (step tr (step keystroke (fresh_client s t, srv))).2
    = stop_typing_emits srv
      ++ [{| recipients := live t srv ∖ {[socket_id s]};
             event := user_stop_typing (user s) t |}].
Proof.
  intros [-> | [-> | ->]].
  - split; [done|]. simpl.
    rewrite typing_stop_stop_typing, typing_start_no_stop_typing. done.
  - split; [done|]. simpl.
    rewrite typing_stop_stop_typing, typing_start_no_stop_typing. done.
  - split; [done|]. simpl.
    rewrite typing_stop_stop_typing.
    change (socket_to_emit s t (user_left_topic (user s))
              (socket_leave s t (typing_start s t srv)))
      with (leave_topic s t (typing_start s t srv)).2.
    rewrite leave_topic_no_stop_typing, typing_start_no_stop_typing.
    rewrite live_leave_topic.
    destruct (decide (t = t)) as [_|[]]; [|done].
    unfold typing_start, socket_to_emit. rewrite live_emit_to.
    do 3 f_equal. apply set_eq. intros x.
    rewrite !elem_of_difference. tauto.
Qed.




(** ** Reactions *)

Lemma find_none_existsb {A} (f : A → bool) (l : list A) :
  List.find f l = None ↔ existsb f l = false.
Proof.
  induction l as [|x l IH]; simpl; [done|].
  destruct (f x); simpl; [split; discriminate | exact IH].
Qed.

Section toggle.

(** The actor and the emoji of the reaction. *)
Variables (u : User) (e : jsstring).

Lemma toggleReaction_present (now : Z) (rs : list Reaction) :
  has_reaction u e rs = true →
  toggleReaction u e now rs = other_reactions u e rs.
Proof.
  unfold has_reaction, toggleReaction. intros Hp.
  destruct (List.find (same_reaction u e) rs) eqn:Hf; [done|].
  apply find_none_existsb in Hf. congruence.
Qed.

Lemma toggleReaction_absent (now : Z) (rs : list Reaction) :
  has_reaction u e rs = false →
  toggleReaction u e now rs = rs ++ [new_reaction u e now].
Proof.
  unfold has_reaction, toggleReaction. intros Hp.
  apply find_none_existsb in Hp. by rewrite Hp.
Qed.

Lemma same_reaction_new (u' : User) (e' : jsstring) (now : Z) :
  same_reaction u' e' (new_reaction u e now) = same_pair u' e' u e.
Proof.
  unfold same_reaction, same_pair. simpl.
  f_equal; apply bool_decide_ext; split; congruence.
Qed.

Lemma same_pair_refl : same_pair u e u e = true.
Proof. unfold same_pair. by rewrite !bool_decide_eq_true_2. Qed.

Lemma same_pair_reaction (u' : User) (e' : jsstring) (r : Reaction) :
  same_pair u' e' u e = true → same_reaction u' e' r = same_reaction u e r.
Proof.
  unfold same_pair, same_reaction.
  intros [Hu%bool_decide_eq_true He%bool_decide_eq_true]%andb_true_iff.
  by rewrite Hu, He.
Qed.

Lemma other_pair_reaction (u' : User) (e' : jsstring) (r : Reaction) :
  same_pair u' e' u e = false → same_reaction u e r = true →
  same_reaction u' e' r = false.
Proof.
  unfold same_pair, same_reaction.
  intros Hne [Hu%bool_decide_eq_true He%bool_decide_eq_true]%andb_true_iff.
  rewrite Hu, He. apply andb_false_iff in Hne as [H|H];
    apply bool_decide_eq_false in H; apply andb_false_iff; [left|right];
    apply bool_decide_eq_false; congruence.
Qed.

Lemma has_reaction_others_own (rs : list Reaction) :
  has_reaction u e (other_reactions u e rs) = false.
Proof.
  unfold has_reaction, other_reactions.
  induction rs as [|r rs IH]; simpl; [done|].
  destruct (same_reaction u e r) eqn:Hr; simpl; [done|]. by rewrite Hr.
Qed.

Lemma has_reaction_others_other (u' : User) (e' : jsstring) (rs : list Reaction) :
  same_pair u' e' u e = false →
  has_reaction u' e' (other_reactions u e rs) = has_reaction u' e' rs.
Proof.
  intros Hne. unfold has_reaction, other_reactions.
  induction rs as [|r rs IH]; simpl; [done|].
  destruct (same_reaction u e r) eqn:Hr; simpl.
  - by rewrite (other_pair_reaction _ _ _ Hne Hr).
  - by rewrite IH.
Qed.

(** One reaction flips whether the actor's pair is on the message and
    leaves every other pair as it was. *)
Lemma has_reaction_toggle (u' : User) (e' : jsstring) (now : Z)
    (rs : list Reaction) :
  has_reaction u' e' (toggleReaction u e now rs)
  = xorb (same_pair u' e' u e) (has_reaction u' e' rs).
Proof.
  destruct (same_pair u' e' u e) eqn:Hp; simpl.
  - assert (∀ l, has_reaction u' e' l = has_reaction u e l) as Heq.
    { intros l. unfold has_reaction. induction l as [|r l IH]; simpl; [done|].
      by rewrite IH, (same_pair_reaction _ _ r Hp). }
    rewrite !Heq. destruct (has_reaction u e rs) eqn:Hh.
    + rewrite toggleReaction_present by done. apply has_reaction_others_own.
    + rewrite toggleReaction_absent by done. unfold has_reaction.
      rewrite existsb_app. simpl. rewrite same_reaction_new, same_pair_refl.
      by rewrite orb_true_r.
  - destruct (has_reaction u e rs) eqn:Hh.
    + rewrite toggleReaction_present by done.
      by apply has_reaction_others_other.
    + rewrite toggleReaction_absent by done. unfold has_reaction.
      rewrite existsb_app. simpl. rewrite same_reaction_new, Hp.
      by rewrite !orb_false_r.
Qed.

Lemma other_reactions_absent (rs : list Reaction) :
  has_reaction u e rs = false → other_reactions u e rs = rs.
Proof.
  unfold has_reaction, other_reactions.
  induction rs as [|r rs IH]; simpl; [done|].
  intros [Hr Hrs]%orb_false_iff. rewrite Hr. simpl. by rewrite IH.
Qed.

Lemma other_reactions_toggle (now : Z) (rs : list Reaction) :
  other_reactions u e (toggleReaction u e now rs) = other_reactions u e rs.
Proof.
  destruct (has_reaction u e rs) eqn:Hh.
  - rewrite toggleReaction_present by done.
    apply other_reactions_absent, has_reaction_others_own.
  - rewrite toggleReaction_absent by done. unfold other_reactions.
    rewrite List.filter_app. simpl.
    rewrite same_reaction_new, same_pair_refl. simpl. apply app_nil_r.
Qed.

Lemma react_times_cons (now : Z) (times : list Z) (rs : list Reaction) :
  react_times u e (now :: times) rs
  = react_times u e times (toggleReaction u e now rs).
Proof. reflexivity. Qed.

(** After [n] reactions the actor's pair is on the message or not by the
    parity of [n]; the other pairs are as they were. *)
Lemma has_reaction_react_times (u' : User) (e' : jsstring) (times : list Z)
    (rs : list Reaction) :
  has_reaction u' e' (react_times u e times rs)
  = xorb (same_pair u' e' u e && Nat.odd (length times)) (has_reaction u' e' rs).
Proof.
  revert rs. induction times as [|now times IH]; intros rs.
  - simpl. by rewrite andb_false_r.
  - rewrite react_times_cons, IH, has_reaction_toggle.
    simpl length. rewrite Nat.odd_succ, <- Nat.negb_odd.
    by destruct (same_pair u' e' u e), (Nat.odd (length times)),
         (has_reaction u' e' rs).
Qed.

End toggle.

(** What the REST controller does to a stored message. *)
Lemma addReaction_stored (u : User) (messageId : ObjectId) (e : jsstring)
    (now : Z) (d : Db) (m : Message) :
  Message_findById messageId d = Some m →
  content_valid (content m) = true →
  addReaction u messageId e now d
  = (json 200 (ok_reactions (toggleReaction u e now (reactions m))),
     {| topics := topics d;
        messages := <[messageId := set_reactions
                                     (toggleReaction u e now (reactions m)) m]>
                      (messages d) |}).
Proof.
  intros Hm Hv. unfold addReaction, Message_save. rewrite Hm. simpl.
  by rewrite Hv.
Qed.

(** The socket handler stores the same and tells the whole room. *)
Lemma add_reaction_stored (s : Socket) (messageId : ObjectId) (e : jsstring)
    (now : Z) (srv : Server) (m : Message) :
  e ≠ [] → (length e ≤ 10)%nat →
  Message_findById messageId (db srv) = Some m →
  content_valid (content m) = true →
  add_reaction s messageId e now srv
  = io_in_emit (topic m)
      (message_reaction_updated messageId
         (toggleReaction (user s) e now (reactions m)))
      (set_db (addReaction (user s) messageId e now (db srv)).2 srv).
Proof.
  intros He Hlen Hm Hv.
  rewrite (addReaction_stored _ _ _ _ _ _ Hm Hv).
  unfold add_reaction, Message_save.
  rewrite (bool_decide_eq_false_2 _ He). simpl.
  destruct (Nat.ltb_spec 10 (length e)) as [?|_]; [lia|].
  rewrite Hm. simpl. by rewrite Hv.
Qed.

Lemma addReaction_times_cons (u : User) (messageId : ObjectId) (e : jsstring)
    (now : Z) (times : list Z) (d : Db) :
  addReaction_times u messageId e (now :: times) d
  = addReaction_times u messageId e times (addReaction u messageId e now d).2.
Proof. reflexivity. Qed.

Lemma addReaction_times_stored (u : User) (messageId : ObjectId) (e : jsstring)
    (times : list Z) (d : Db) (m : Message) :
  Message_findById messageId d = Some m →
  content_valid (content m) = true →
  Message_findById messageId (addReaction_times u messageId e times d)
  = Some (set_reactions (react_times u e times (reactions m)) m).
Proof.
  revert d m. induction times as [|now times IH]; intros d m Hm Hv.
  - simpl. rewrite Hm. by destruct m.
  - rewrite addReaction_times_cons, react_times_cons.
    rewrite (addReaction_stored _ _ _ _ _ _ Hm Hv). simpl.
    rewrite (IH _ (set_reactions (toggleReaction u e now (reactions m)) m));
      [reflexivity| |exact Hv].
    unfold Message_findById. simpl. apply lookup_insert_eq.
Qed.

Lemma toggleReaction_twice_absent (u : User) (e : jsstring) (now1 now2 : Z)
    (rs : list Reaction) :
  has_reaction u e rs = false →
  toggleReaction u e now2 (toggleReaction u e now1 rs) = rs.
Proof.
  intros Ha. rewrite (toggleReaction_present u e now2).
  - rewrite other_reactions_toggle. by apply other_reactions_absent.
  - rewrite has_reaction_toggle, same_pair_refl, Ha. done.
Qed.

Lemma toggleReaction_twice_present (u : User) (e : jsstring) (now1 now2 : Z)
    (rs : list Reaction) :
  has_reaction u e rs = true →
  toggleReaction u e now2 (toggleReaction u e now1 rs)
  = other_reactions u e rs ++ [new_reaction u e now2].
Proof.
  intros Hp. rewrite (toggleReaction_present u e now1 rs Hp).
  apply toggleReaction_absent.
  rewrite <- (toggleReaction_present u e now1 rs Hp).
  rewrite has_reaction_toggle, same_pair_refl, Hp. done.
Qed.

(** C5 (as amended): reacting when the pair is on the message removes every
    reaction with that pair, and reacting when it is not appends one.
    Reacting twice gives back the same set of (user, emoji) pairs, and so
    does any even number of reactions.  The list itself comes back when the
    pair was absent at the start; when it was present, two reactions leave
    the reactions of the other pairs, in their order, followed by one new
    reaction of the pair with the time of the second reaction, which is the
    list from before only if that list had this very form.  Both handlers
    store this list, and the socket handler sends it to the whole room of
    the message. *)
Theorem reaction_toggle (u : User) (e : jsstring) (rs : list Reaction) :
  (∀ now, has_reaction u e rs = true →
     toggleReaction u e now rs = other_reactions u e rs
     ∧ has_reaction u e (toggleReaction u e now rs) = false)
  ∧ (∀ now, has_reaction u e rs = false →
       toggleReaction u e now rs = rs ++ [new_reaction u e now])
  ∧ (∀ now1 now2 u' e',
       has_reaction u' e' (toggleReaction u e now2 (toggleReaction u e now1 rs))
       = has_reaction u' e' rs)
  ∧ (∀ now1 now2, has_reaction u e rs = false →
       toggleReaction u e now2 (toggleReaction u e now1 rs) = rs)
  ∧ (∀ now1 now2, has_reaction u e rs = true →
       toggleReaction u e now2 (toggleReaction u e now1 rs)
       = other_reactions u e rs ++ [new_reaction u e now2])
  ∧ (∀ now1 now2,
       toggleReaction u e now2 (toggleReaction u e now1 rs) = rs
       ↔ has_reaction u e rs = false
         ∨ rs = other_reactions u e rs ++ [new_reaction u e now2])
  ∧ (∀ times u' e', Nat.even (length times) = true →
       has_reaction u' e' (react_times u e times rs) = has_reaction u' e' rs)
  ∧ (∀ messageId d m times,
       Message_findById messageId d = Some m → reactions m = rs →
       content_valid (content m) = true →
       Message_findById messageId (addReaction_times u messageId e times d)
       = Some (set_reactions (react_times u e times rs) m))
  ∧ (∀ s messageId now srv m,
       user s = u → e ≠ [] → (length e ≤ 10)%nat →
       Message_findById messageId (db srv) = Some m → reactions m = rs →
       content_valid (content m) = true →
       Message_findById messageId (db (add_reaction s messageId e now srv))
       = Some (set_reactions (toggleReaction u e now rs) m)
       ∧ emitted (live (topic m) srv)
           (message_reaction_updated messageId (toggleReaction u e now rs))
           srv (add_reaction s messageId e now srv)).
Proof.
  split_and!.
  - intros now Hp. split; [by apply toggleReaction_present|].
    rewrite has_reaction_toggle, same_pair_refl, Hp. done.
  - intros now Ha. by apply toggleReaction_absent.
  - intros now1 now2 u' e'. rewrite !has_reaction_toggle.
    by destruct (same_pair u' e' u e), (has_reaction u' e' rs).
  - intros now1 now2 Ha. by apply toggleReaction_twice_absent.
  - intros now1 now2 Hp. by apply toggleReaction_twice_present.
  - intros now1 now2. destruct (has_reaction u e rs) eqn:Hh.
    + rewrite toggleReaction_twice_present by done.
      split; [by right|]. by intros [?|?].
    + rewrite toggleReaction_twice_absent by done. split; [by left|done].
  - intros times u' e' Heven. rewrite has_reaction_react_times.
    rewrite <- Nat.negb_even, Heven. simpl. by rewrite andb_false_r.
  - intros messageId d m times Hm <- Hv. by apply addReaction_times_stored.
  - intros s messageId now srv m <- He Hlen Hm <- Hv.
    rewrite (add_reaction_stored _ _ _ _ _ _ He Hlen Hm Hv).
    rewrite (addReaction_stored _ _ _ _ _ _ Hm Hv). split.
    + unfold Message_findById. simpl. apply lookup_insert_eq.
    + reflexivity.
Qed.

(** Carol likes bob's message twice: her thumbs-up comes and goes and the
    list is the one from before. *)
Lemma reaction_toggle_witness :
  toggleReaction carol thumbs_up 5000
    (toggleReaction carol thumbs_up 4000 (reactions liked_message))
  = reactions liked_message.
Proof.
  destruct (reaction_toggle carol thumbs_up (reactions liked_message))
    as (_ & _ & _ & Hback & _).
  apply Hback. reflexivity.
Defined.

(** The claim as stated fails: alice's thumbs-up stands before bob's.  She
    reacts twice through [addReaction]; her reaction is removed and then
    pushed to the end, so the stored list is not the one from before. *)
Lemma reaction_twice_counterexample :
  Message_findById 7%N (addReaction_times alice 7%N thumbs_up [4000; 5000]%Z db2)
  = Some (set_reactions
            [{| reaction_user := 2%N; reaction_emoji := thumbs_up;
                reaction_createdAt := 3000 |};
             {| reaction_user := 1%N; reaction_emoji := thumbs_up;
                reaction_createdAt := 5000 |}]
            liked_message)
  ∧ react_times alice thumbs_up [4000; 5000]%Z (reactions liked_message)
    ≠ reactions liked_message.
Proof. split; [reflexivity | discriminate]. Qed.

Lemma same_but_reactions_set (rs : list Reaction) (m : Message) :
  same_but_reactions m (set_reactions rs m).
Proof. unfold same_but_reactions. simpl. done. Qed.

Lemma same_but_reactions_refl (m : Message) : same_but_reactions m m.
Proof. unfold same_but_reactions. done. Qed.

(** Whatever [addReaction] answers, the message it was aimed at is still
    stored, changed at most in its reaction list. *)
Lemma addReaction_frame (u : User) (messageId : ObjectId) (e : jsstring)
    (now : Z) (d : Db) (m : Message) :
  Message_findById messageId d = Some m →
  ∃ m', Message_findById messageId (addReaction u messageId e now d).2 = Some m'
        ∧ other_reactions u e (reactions m') = other_reactions u e (reactions m)
        ∧ same_but_reactions m m'.
Proof.
  intros Hm. unfold addReaction, Message_save. rewrite Hm. simpl.
  destruct (content_valid (content m)); simpl.
  - eexists. split; [apply lookup_insert_eq|]. simpl.
    split; [apply other_reactions_toggle|apply same_but_reactions_set].
  - exists m. split_and!; [done|done|apply same_but_reactions_refl].
Qed.

Lemma addReaction_other_messages (u : User) (messageId other : ObjectId)
    (e : jsstring) (now : Z) (d : Db) :
  other ≠ messageId →
  Message_findById other (addReaction u messageId e now d).2
  = Message_findById other d.
Proof.
  intros Hne. unfold addReaction, Message_save.
  destruct (Message_findById messageId d) as [m|]; [|done]. simpl.
  destruct (content_valid (content m)); simpl; [|done].
  unfold Message_findById. simpl. by apply lookup_insert_ne.
Qed.

(** The socket handler changes the store as the controller does, or not at
    all. *)
Lemma add_reaction_db (s : Socket) (messageId : ObjectId) (e : jsstring)
    (now : Z) (srv : Server) :
  db (add_reaction s messageId e now srv) = db srv
  ∨ db (add_reaction s messageId e now srv)
    = (addReaction (user s) messageId e now (db srv)).2.
Proof.
  unfold add_reaction, addReaction.
  destruct (bool_decide (e = []) || (10 <? length e)%nat); [by left|].
  destruct (Message_findById messageId (db srv)) as [m|]; [|by left]. simpl.
  destruct (Message_save _ _ _); simpl; [by right|by left].
Qed.

(** C10: a reaction of [u] with [e] keeps every reaction of another pair,
    in the order they had, and keeps every other field of the message:
    content, sender, topic, createdAt, isEdited, editedAt, replyTo,
    messageType.  This holds for the REST controller and for the socket
    handler, and neither touches any other message. *)
Theorem reaction_frame (u : User) (e : jsstring) (now : Z) (m : Message)
    (messageId : ObjectId) :
  other_reactions u e (toggleReaction u e now (reactions m))
  = other_reactions u e (reactions m)
  ∧ (∀ d, Message_findById messageId d = Some m →
       (∃ m', Message_findById messageId (addReaction u messageId e now d).2
              = Some m'
              ∧ other_reactions u e (reactions m')
                = other_reactions u e (reactions m)
              ∧ same_but_reactions m m')
       ∧ ∀ other, other ≠ messageId →
           Message_findById other (addReaction u messageId e now d).2
           = Message_findById other d)
  ∧ (∀ s srv, user s = u →
       Message_findById messageId (db srv) = Some m →
       (∃ m', Message_findById messageId (db (add_reaction s messageId e now srv))
              = Some m'
              ∧ other_reactions u e (reactions m')
                = other_reactions u e (reactions m)
              ∧ same_but_reactions m m')
       ∧ ∀ other, other ≠ messageId →
           Message_findById other (db (add_reaction s messageId e now srv))
           = Message_findById other (db srv)).
Proof.
  split_and!.
  - apply other_reactions_toggle.
  - intros d Hm. split; [by apply addReaction_frame|].
    intros other Hne. by apply addReaction_other_messages.
  - intros s srv <- Hm.
    destruct (add_reaction_db s messageId e now srv) as [-> | ->].
    + split; [|done]. exists m. split_and!; [done|done|].
      apply same_but_reactions_refl.
    + split; [by apply addReaction_frame|].
      intros other Hne. by apply addReaction_other_messages.
Qed.

(** Alice takes her thumbs-up off bob's message through the socket: bob's
    own thumbs-up stays, and so does the text. *)
Lemma reaction_frame_witness :
  ∃ m', Message_findById 7%N
          (db (add_reaction alice_live 7%N thumbs_up 4000
                 {| db := db2; rooms := rooms server2; outbox := [] |}))
        = Some m'
        ∧ other_reactions alice thumbs_up (reactions m')
          = [{| reaction_user := 2%N; reaction_emoji := thumbs_up;
                reaction_createdAt := 3000 |}]
        ∧ content m' = js "hello".
Proof.
  destruct (reaction_frame alice thumbs_up 4000 liked_message 7%N)
    as (_ & _ & Hsocket).
  destruct (Hsocket alice_live
              {| db := db2; rooms := rooms server2; outbox := [] |}
              eq_refl eq_refl) as [(m' & Hm' & Hothers & Hsame & _) _].
  exists m'. split_and!; [exact Hm' | exact Hothers | exact Hsame].
Defined.

(** * The rest of the engine *)

(** ** Rooms under leave and disconnect *)

Lemma socket_leave_outbox (s : Socket) (room : ObjectId) (srv : Server) :
  outbox (socket_leave s room srv) = outbox srv.
Proof.
  unfold socket_leave. destruct (rooms srv !! room); [|done]. by case_decide.
Qed.

Lemma socket_leave_db (s : Socket) (room : ObjectId) (srv : Server) :
  db (socket_leave s room srv) = db srv.
Proof.
  unfold socket_leave. destruct (rooms srv !! room); [|done]. by case_decide.
Qed.

(** X1: [leave-topic] takes the connection out of the live set of the named
    room and of no other, tells the connections that remain, and leaves
    [socket.currentTopic] as it was; it does all of this also for a room the
    connection was never in. *)
Theorem leave_topic_effect (s : Socket) (t : ObjectId) (srv : Server) :
  live t (leave_topic s t srv).2 = live t srv ∖ {[socket_id s]}
  ∧ (∀ room, room ≠ t → live room (leave_topic s t srv).2 = live room srv)
  ∧ (leave_topic s t srv).1 = s
  ∧ db (leave_topic s t srv).2 = db srv
  ∧ emitted (live t srv ∖ {[socket_id s]}) (user_left_topic (user s)) srv
      (leave_topic s t srv).2.
Proof.
  unfold leave_topic, socket_to_emit, emitted. simpl.
  rewrite (socket_leave_outbox s t srv), (socket_leave_db s t srv).
  split_and!.
  - by rewrite live_emit_to, live_socket_leave, decide_True.
  - intros room Hne. by rewrite live_emit_to, live_socket_leave, decide_False.
  - done.
  - done.
  - rewrite live_socket_leave, decide_True by done.
    do 3 f_equal. apply set_eq. intros x. rewrite !elem_of_difference. tauto.
Qed.

Lemma join_topic_granted_eq (s : Socket) (t : ObjectId) (srv : Server)
    (tp : Topic) :
  Topic_findById t (db srv) = Some tp →
  hasAccess tp (user s) = true →
  join_topic s t srv
  = (set_currentTopic (Some t) s,
     emit_to (({[socket_id s]} ∪ live t srv) ∖ {[socket_id s]})
       (user_joined_topic (user s)) (socket_join s t srv)).
Proof.
  intros Ht Ha. unfold join_topic. rewrite Ht, Ha. simpl.
  unfold socket_to_emit. simpl.
  by rewrite live_socket_join, decide_True.
Qed.

Lemma live_empty_wf (room : ObjectId) (srv : Server) :
  rooms_wf srv → live room srv = ∅ → rooms srv !! room = None.
Proof.
  unfold live. intros Hwf Hempty.
  destruct (rooms srv !! room) as [sockets|] eqn:Hroom; [|done].
  by destruct (Hwf room sockets Hroom).
Qed.

(** X2: joining a room and leaving it again gives back the rooms of the
    adapter exactly, for a connection that was not in the room before. *)
Theorem join_leave_round_trip (s : Socket) (t : ObjectId) (srv : Server)
    (tp : Topic) :
  rooms_wf srv →
  Topic_findById t (db srv) = Some tp →
  hasAccess tp (user s) = true →
  socket_id s ∉ live t srv →
  rooms (leave_topic (join_topic s t srv).1 t (join_topic s t srv).2).2
  = rooms srv.
Proof.
  intros Hwf Ht Ha Hfresh. rewrite (join_topic_granted_eq s t srv tp Ht Ha).
  unfold leave_topic, socket_to_emit, socket_leave, socket_join. simpl.
  rewrite lookup_insert_eq.
  assert (({[socket_id s]} ∪ live t srv) ∖ {[socket_id s]} = live t srv) as ->.
  { apply set_eq. intros x.
    rewrite elem_of_difference, elem_of_union, elem_of_singleton.
    split; [intros [[->|Hx] Hne]; done|].
    intros Hx. split; [by right|]. by intros ->. }
  destruct (decide (live t srv = ∅)) as [Hempty|Hfull]; simpl.
  - rewrite delete_insert_eq. apply delete_id.
    by apply live_empty_wf.
  - rewrite insert_insert_eq. apply insert_id.
    unfold live in *. destruct (rooms srv !! t); [done|]. by destruct Hfull.
Qed.

Lemma server1_rooms_wf : rooms_wf server1.
Proof.
  intros room sockets Hroom. simpl in Hroom.
  apply lookup_singleton_Some in Hroom as [_ <-].
  intros Hempty. apply (f_equal (λ X : gset SocketId, bool_decide (100%N ∈ X)))
    in Hempty. discriminate Hempty.
Defined.

(** Bob joins the public topic, where alice is, and leaves it again. *)
Lemma join_leave_round_trip_witness :
  rooms (leave_topic (join_topic bob_socket 10%N server1).1 10%N
           (join_topic bob_socket 10%N server1).2).2
  = rooms server1.
Proof.
  apply (join_leave_round_trip bob_socket 10%N server1 lobby server1_rooms_wf
           eq_refl eq_refl).
  apply (bool_decide_eq_false_1 (200%N ∈ ({[100%N]} : gset SocketId))).
  reflexivity.
Defined.

Lemma rooms_wf_socket_join (s : Socket) (room : ObjectId) (srv : Server) :
  rooms_wf srv → rooms_wf (socket_join s room srv).
Proof.
  intros Hwf r sockets. unfold socket_join. simpl. rewrite lookup_insert.
  case_decide; [|by apply Hwf].
  intros [= <-] Hempty.
  assert (socket_id s ∈ ({[socket_id s]} ∪ live room srv)) as Hin
    by (apply elem_of_union_l, elem_of_singleton; reflexivity).
  rewrite Hempty in Hin. by apply not_elem_of_empty in Hin.
Qed.

Lemma rooms_wf_socket_leave (s : Socket) (room : ObjectId) (srv : Server) :
  rooms_wf srv → rooms_wf (socket_leave s room srv).
Proof.
  intros Hwf r sockets. unfold socket_leave.
  destruct (rooms srv !! room) as [old|]; [|by apply Hwf].
  destruct (decide (old ∖ {[socket_id s]} = ∅)) as [|Hfull]; simpl.
  - rewrite lookup_delete. case_decide; [done|by apply Hwf].
  - rewrite lookup_insert. case_decide; [|by apply Hwf].
    by intros [= <-].
Qed.

Lemma rooms_wf_leaveAll (s : Socket) (srv : Server) :
  rooms_wf srv → rooms_wf (leaveAll s srv).
Proof.
  intros Hwf r sockets. unfold leaveAll. simpl. rewrite lookup_omap.
  destruct (rooms srv !! r) as [old|]; simpl; [|done].
  destruct (decide (old ∖ {[socket_id s]} = ∅)); [done|]. by intros [= <-].
Qed.

Lemma rooms_wf_same (srv srv' : Server) :
  rooms srv' = rooms srv → rooms_wf srv → rooms_wf srv'.
Proof. unfold rooms_wf. by intros ->. Qed.

Lemma send_message_rooms (s : Socket) (c : jsstring) (t : ObjectId)
    (reply : option ObjectId) (newId : ObjectId) (now now' : Z) (srv : Server) :
  rooms (send_message s c t reply newId now now' srv) = rooms srv.
Proof.
  destruct (send_message_cases s c t reply newId now now' srv)
    as [(Hne & Hlen & tp & Ht & Ha)|[e ->]]; [|done].
  by rewrite (send_message_sendable _ _ _ _ _ _ _ _ tp Hne Hlen Ht Ha).
Qed.

Lemma add_reaction_rooms (s : Socket) (messageId : ObjectId) (e : jsstring)
    (now : Z) (srv : Server) :
  rooms (add_reaction s messageId e now srv) = rooms srv.
Proof.
  unfold add_reaction.
  destruct (bool_decide (e = []) || (10 <? length e)%nat); [done|].
  destruct (Message_findById messageId (db srv)); [|done]. simpl.
  by destruct (Message_save _ _ _).
Qed.

(** X3: no handler of the server ever leaves an empty room behind: if no
    room is empty before a command, none is after it. *)
Theorem rooms_wf_preserved (s : Socket) (srv : Server) :
  rooms_wf srv →
  (∀ t, rooms_wf (join_topic s t srv).2)
  ∧ (∀ t, rooms_wf (leave_topic s t srv).2)
  ∧ rooms_wf (disconnect s srv)
  ∧ (∀ c t reply newId now now',
       rooms_wf (send_message s c t reply newId now now' srv))
  ∧ (∀ t, rooms_wf (typing_start s t srv))
  ∧ (∀ t, rooms_wf (typing_stop s t srv))
  ∧ (∀ messageId e now, rooms_wf (add_reaction s messageId e now srv)).
Proof.
  intros Hwf. split_and!.
  - intros t. unfold join_topic.
    destruct (Topic_findById t (db srv)) as [tp|]; [|done].
    destruct (hasAccess tp (user s)); simpl; [|done].
    by apply (rooms_wf_socket_join s t srv).
  - intros t. by apply (rooms_wf_socket_leave s t srv).
  - unfold disconnect. pose proof (rooms_wf_leaveAll s srv Hwf).
    by destruct (currentTopic s).
  - intros c t reply newId now now'.
    by eapply rooms_wf_same; [apply send_message_rooms|].
  - done.
  - done.
  - intros messageId e now.
    by eapply rooms_wf_same; [apply add_reaction_rooms|].
Qed.

(** Alice was alone in the public topic; after she disconnects the rooms
    are still well formed. *)
Lemma rooms_wf_preserved_witness : rooms_wf (disconnect alice_live server1).
Proof.
  destruct (rooms_wf_preserved alice_live server1 server1_rooms_wf)
    as (_ & _ & Hd & _).
  exact Hd.
Defined.

(** ** Disconnecting *)

(** X4: after [disconnect] the connection is in no live set and every other
    connection is where it was.  The one notice, [user-left-topic], goes to
    the others in the room named by [socket.currentTopic], whether or not
    the connection was still in that room; a connection without a current
    topic leaves without a notice. *)
Theorem disconnect_effect (s : Socket) (srv : Server) :
  (∀ room, live room (disconnect s srv) = live room srv ∖ {[socket_id s]})
  ∧ db (disconnect s srv) = db srv
  ∧ (∀ t, currentTopic s = Some t →
       emitted (live t srv ∖ {[socket_id s]}) (user_left_topic (user s)) srv
         (disconnect s srv))
  ∧ (currentTopic s = None → outbox (disconnect s srv) = outbox srv).
Proof.
  unfold disconnect. split_and!.
  - intros room. destruct (currentTopic s); [unfold socket_to_emit|];
      rewrite ?live_emit_to; apply live_leaveAll.
  - by destruct (currentTopic s).
  - intros t ->. unfold socket_to_emit, emitted. simpl.
    rewrite live_leaveAll. do 3 f_equal.
    apply set_eq. intros x. rewrite !elem_of_difference. tauto.
  - by intros ->.
Qed.

(** X5: [leave-topic] does not clear [socket.currentTopic], so a connection
    that leaves its current topic and then disconnects is announced as gone
    twice to the same connections. *)
Theorem leave_then_disconnect_notifies_twice (s : Socket) (t : ObjectId)
    (srv : Server) :
  currentTopic s = Some t →
  outbox (disconnect (leave_topic s t srv).1 (leave_topic s t srv).2)
  = outbox srv
    ++ [{| recipients := live t srv ∖ {[socket_id s]};
           event := user_left_topic (user s) |};
        {| recipients := live t srv ∖ {[socket_id s]};
           event := user_left_topic (user s) |}].
Proof.
  intros Hcur.
  destruct (leave_topic_effect s t srv) as (Hlive & _ & Hs & _ & Hleft).
  destruct (disconnect_effect (leave_topic s t srv).1 (leave_topic s t srv).2)
    as (_ & _ & Hgone & _).
  rewrite Hs in Hgone |- *. specialize (Hgone t Hcur).
  unfold emitted in *. rewrite Hgone, Hleft, Hlive, <- app_assoc. simpl.
  do 4 f_equal. apply set_eq. intros x. rewrite !elem_of_difference. tauto.
Qed.

(** Alice leaves the room she shares with bob and then disconnects: bob is
    told twice. *)
Lemma leave_then_disconnect_notifies_twice_witness :
  outbox (disconnect (leave_topic alice_live 10%N server2).1
            (leave_topic alice_live 10%N server2).2)
  = [{| recipients := live 10%N server2 ∖ {[100%N]};
        event := user_left_topic alice |};
     {| recipients := live 10%N server2 ∖ {[100%N]};
        event := user_left_topic alice |}].
Proof.
  apply (leave_then_disconnect_notifies_twice alice_live 10%N server2 eq_refl).
Defined.

Lemma live_join_topic (s : Socket) (t r : ObjectId) (srv : Server) (tp : Topic) :
  Topic_findById t (db srv) = Some tp →
  hasAccess tp (user s) = true →
  live r (join_topic s t srv).2
  = if decide (t = r) then {[socket_id s]} ∪ live r srv else live r srv.
Proof.
  intros Ht Ha. rewrite (join_topic_granted_eq s t srv tp Ht Ha). simpl.
  by rewrite live_emit_to, live_socket_join.
Qed.

Lemma join_topic_db (s : Socket) (t : ObjectId) (srv : Server) :
  db (join_topic s t srv).2 = db srv.
Proof.
  unfold join_topic. destruct (Topic_findById t (db srv)) as [tp|]; [|done].
  by destruct (hasAccess tp (user s)).
Qed.

(** X6: a connection that joined room [a] and then room [b] is in both, but
    [disconnect] announces it to [b] alone: it drops out of [a] without a
    word to the connections there. *)
Theorem disconnect_notifies_last_joined_only (s : Socket) (a b : ObjectId)
    (srv : Server) (ta tb : Topic) :
  a ≠ b →
  Topic_findById a (db srv) = Some ta → hasAccess ta (user s) = true →
  Topic_findById b (db srv) = Some tb → hasAccess tb (user s) = true →
  let first := join_topic s a srv in
  let second := join_topic (fst first) b (snd first) in
  socket_id s ∈ live a (snd second)
  ∧ socket_id s ∈ live b (snd second)
  ∧ (socket_id s ∉ live a (disconnect (fst second) (snd second)))
  ∧ emitted (live b srv ∖ {[socket_id s]}) (user_left_topic (user s))
      (snd second) (disconnect (fst second) (snd second)).
Proof.
  intros Hab Hta Haa Htb Hab'. cbv zeta.
  assert (fst (join_topic s a srv) = set_currentTopic (Some a) s) as Hs1
    by (by rewrite (join_topic_granted_eq s a srv ta Hta Haa)).
  assert (Topic_findById b (db (snd (join_topic s a srv))) = Some tb) as Htb1
    by (by rewrite join_topic_db).
  rewrite Hs1.
  set (s1 := set_currentTopic (Some a) s).
  set (srv1 := snd (join_topic s a srv)) in *.
  assert (fst (join_topic s1 b srv1) = set_currentTopic (Some b) s1) as Hs2
    by (by rewrite (join_topic_granted_eq s1 b srv1 tb Htb1 Hab')).
  assert (∀ r, live r (snd (join_topic s1 b srv1))
               = if decide (b = r) then {[socket_id s]} ∪ live r srv1
                 else live r srv1) as Hlive2
    by (intros r; apply (live_join_topic s1 b r srv1 tb Htb1 Hab')).
  assert (∀ r, live r srv1
               = if decide (a = r) then {[socket_id s]} ∪ live r srv
                 else live r srv) as Hlive1
    by (intros r; apply (live_join_topic s a r srv ta Hta Haa)).
  rewrite Hs2.
  destruct (disconnect_effect (set_currentTopic (Some b) s1)
              (snd (join_topic s1 b srv1))) as (Hgone & _ & Hleft & _).
  split_and!.
  - rewrite Hlive2, decide_False, Hlive1, decide_True by done.
    apply elem_of_union_l, elem_of_singleton. reflexivity.
  - rewrite Hlive2, decide_True by done.
    apply elem_of_union_l, elem_of_singleton. reflexivity.
  - rewrite Hgone, elem_of_difference, elem_of_singleton. simpl. tauto.
  - specialize (Hleft b eq_refl).
    simpl in Hleft. unfold emitted in *. rewrite Hleft. do 3 f_equal.
    rewrite Hlive2, decide_True, Hlive1, decide_False by done.
    apply set_eq. intros x.
    rewrite !elem_of_difference, elem_of_union, elem_of_singleton. tauto.
Qed.

(** Alice joins the public topic, where bob is, then her private one, and
    disconnects: the notice goes to the empty rest of the private room. *)
Lemma disconnect_notifies_last_joined_only_witness :
  emitted (live 20%N server_bob ∖ {[100%N]}) (user_left_topic alice)
    (snd (join_topic (fst (join_topic alice_socket 10%N server_bob)) 20%N
            (snd (join_topic alice_socket 10%N server_bob))))
    (disconnect
       (fst (join_topic (fst (join_topic alice_socket 10%N server_bob)) 20%N
               (snd (join_topic alice_socket 10%N server_bob))))
       (snd (join_topic (fst (join_topic alice_socket 10%N server_bob)) 20%N
               (snd (join_topic alice_socket 10%N server_bob))))).
Proof.
  destruct (disconnect_notifies_last_joined_only alice_socket 10%N 20%N
              server_bob lobby backroom ltac:(discriminate) eq_refl eq_refl
              eq_refl eq_refl) as (_ & _ & _ & Hleft).
  exact Hleft.
Defined.

(** ** What a send reaches *)

(** X7: every [send-message] answers with exactly one emit: either a
    [message-error] to the sender alone, with the store untouched, or the
    new message to the live set of the room named in the command.  The rooms
    are never changed. *)
Theorem send_message_reach (s : Socket) (c : jsstring) (t : ObjectId)
    (reply : option ObjectId) (newId : ObjectId) (now now' : Z) (srv : Server) :
  rooms (send_message s c t reply newId now now' srv) = rooms srv
  ∧ ((∃ e, emitted {[socket_id s]} (message_error e) srv
             (send_message s c t reply newId now now' srv)
           ∧ db (send_message s c t reply newId now now' srv) = db srv)
     ∨ emitted (live t srv)
         (new_message newId (sent_message s c t reply now)) srv
         (send_message s c t reply newId now now' srv)).
Proof.
  split; [apply send_message_rooms|].
  destruct (send_message_cases s c t reply newId now now' srv)
    as [(Hne & Hlen & tp & Ht & Ha)|[e ->]].
  - right. by rewrite (send_message_sendable _ _ _ _ _ _ _ _ tp Hne Hlen Ht Ha).
  - left. by exists e.
Qed.

(** X8: access is checked again at every send, but nothing takes a
    connection out of a room when its user stops being a member.  A
    connection that is live in a private room without being a member cannot
    send to it, and still receives what the members send. *)
Theorem send_message_after_membership_lost (s s' : Socket) (c : jsstring)
    (t : ObjectId) (reply : option ObjectId) (newId : ObjectId) (now now' : Z)
    (srv : Server) (tp : Topic) :
  Topic_findById t (db srv) = Some tp →
  isPrivate tp = true →
  _id (user s) ∉ members tp →
  _id (user s') ∈ members tp →
  socket_id s ∈ live t srv →
  trim c ≠ [] → (length c ≤ 1000)%nat →
  send_message s c t reply newId now now' srv
  = socket_emit s (message_error "Access denied to this topic") srv
  ∧ ∃ to, emitted to (new_message newId (sent_message s' c t reply now)) srv
            (send_message s' c t reply newId now now' srv)
          ∧ socket_id s ∈ to.
Proof.
  intros Ht Hp Hout Hin Hlive Hne Hlen. split.
  - assert (hasAccess tp (user s) = false) as Ha
      by (by apply hasAccess_denied).
    unfold send_message.
    assert (c ≠ []) as Hc by (intros ->; by apply Hne).
    rewrite (bool_decide_eq_false_2 _ Hc), (bool_decide_eq_false_2 _ Hne).
    simpl. destruct (Nat.ltb_spec 1000 (length c)) as [?|_]; [lia|].
    by rewrite Ht, Ha.
  - assert (hasAccess tp (user s') = true) as Ha
      by (apply hasAccess_spec; by right).
    exists (live t srv). split; [|done].
    by rewrite (send_message_sendable _ _ _ _ _ _ _ _ tp Hne Hlen Ht Ha).
Qed.

(** Bob, live in alice's private room but no member, is refused, and hears
    alice. *)
Lemma send_message_after_membership_lost_witness :
  send_message bob_socket (js "hi") 20%N None 7%N 50 51 server_backroom
  = socket_emit bob_socket (message_error "Access denied to this topic")
      server_backroom
  ∧ ∃ to, emitted to
            (new_message 7%N (sent_message alice_socket (js "hi") 20%N None 50))
            server_backroom
            (send_message alice_socket (js "hi") 20%N None 7%N 50 51
               server_backroom)
          ∧ socket_id bob_socket ∈ to.
Proof.
  apply (send_message_after_membership_lost bob_socket alice_socket (js "hi")
           20%N None 7%N 50 51 server_backroom backroom eq_refl eq_refl).
  - apply (bool_decide_eq_false_1 (2%N ∈ [1%N])). reflexivity.
  - apply (bool_decide_eq_true_1 (1%N ∈ [1%N])). reflexivity.
  - apply (bool_decide_eq_true_1 (200%N ∈ ({[100%N; 200%N]} : gset SocketId))).
    reflexivity.
  - discriminate.
  - vm_compute. lia.
Defined.

(** ** Validity of the store *)

Lemma db_valid_insert (messageId : ObjectId) (m : Message) (d : Db)
    (tps : gmap ObjectId Topic) :
  db_valid d → content_valid (content m) = true →
  db_valid {| topics := tps; messages := <[messageId := m]> (messages d) |}.
Proof.
  intros Hd Hm other m'. simpl. rewrite lookup_insert.
  case_decide; [by intros [= <-]|by apply Hd].
Qed.

Lemma db_valid_Message_save (messageId : ObjectId) (m : Message) (d d' : Db) :
  db_valid d → Message_save messageId m d = Some d' → db_valid d'.
Proof.
  unfold Message_save. intros Hd.
  destruct (content_valid (content m)) eqn:Hv; [|done].
  intros [= <-]. by apply db_valid_insert.
Qed.

Lemma db_valid_addReaction (u : User) (messageId : ObjectId) (e : jsstring)
    (now : Z) (d : Db) :
  db_valid d → db_valid (addReaction u messageId e now d).2.
Proof.
  intros Hd. unfold addReaction.
  destruct (Message_findById messageId d) as [m|]; [|done]. simpl.
  destruct (Message_save _ _ _) as [d'|] eqn:Hs; [|done].
  by eapply db_valid_Message_save.
Qed.

(** X9: every message in the store passes the validators of the schema, and
    no handler breaks this: not a send, an edit, a delete or a reaction.
    On such a store a reaction to a stored message never fails. *)
Theorem db_valid_preserved (srv : Server) :
  db_valid (db srv) →
  (∀ s c t reply newId now now',
     db_valid (db (send_message s c t reply newId now now' srv)))
  ∧ (∀ s messageId e now, db_valid (db (add_reaction s messageId e now srv)))
  ∧ (∀ u messageId c now now',
       db_valid (editMessage u messageId c now now' (db srv)).2)
  ∧ (∀ u messageId, db_valid (deleteMessage u messageId (db srv)).2)
  ∧ (∀ u messageId e now, db_valid (addReaction u messageId e now (db srv)).2)
  ∧ (∀ u messageId e now m,
       Message_findById messageId (db srv) = Some m →
       status (addReaction u messageId e now (db srv)).1 = 200%nat).
Proof.
  intros Hd. split_and!.
  - intros s c t reply newId now now'.
    destruct (send_message_cases s c t reply newId now now' srv)
      as [(Hne & Hlen & tp & Ht & Ha)|[e ->]]; [|done].
    rewrite (send_message_sendable _ _ _ _ _ _ _ _ tp Hne Hlen Ht Ha). simpl.
    intros other m'. simpl. rewrite lookup_insert.
    case_decide; [|by apply Hd].
    intros [= <-]. simpl. rewrite <- (trim_idempotent c).
    by apply sent_content_valid.
  - intros s messageId e now.
    destruct (add_reaction_db s messageId e now srv) as [-> | ->]; [done|].
    by apply db_valid_addReaction.
  - intros u messageId c now now'. unfold editMessage.
    destruct (Message_findById messageId (db srv)) as [m|]; [|done].
    destruct (negb _); [done|]. simpl.
    destruct (_ <? _)%Z; [done|].
    destruct (Message_save _ _ _) as [d'|] eqn:Hs; [|done].
    by eapply db_valid_Message_save.
  - intros u messageId. unfold deleteMessage.
    destruct (Message_findById messageId (db srv)) as [m|]; [|done].
    destruct (Topic_findById (topic m) (db srv)); [|done]. simpl.
    destruct (_ && _); [done|]. simpl.
    intros other m'. simpl. rewrite lookup_delete.
    case_decide; [done|by apply Hd].
  - intros u messageId e now. by apply db_valid_addReaction.
  - intros u messageId e now m Hm.
    by rewrite (addReaction_stored _ _ _ _ _ _ Hm (Hd _ _ Hm)).
Qed.

Lemma db2_valid : db_valid db2.
Proof.
  intros messageId m Hm. simpl in Hm.
  apply lookup_insert_Some in Hm as [[_ <-]|[_ Hm]]; [reflexivity|].
  by rewrite lookup_empty in Hm.
Defined.

(** Alice's reaction to bob's stored message is answered with 200. *)
Lemma db_valid_preserved_witness :
  status (addReaction alice 7%N thumbs_up 4000 db2).1 = 200%nat.
Proof.
  destruct (db_valid_preserved
              {| db := db2; rooms := ∅; outbox := [] |} db2_valid)
    as (_ & _ & _ & _ & _ & Hok).
  apply (Hok alice 7%N thumbs_up 4000%Z liked_message eq_refl).
Defined.

(** ** Reactions with a bad emoji *)

(** X10: the socket handler drops a reaction whose emoji is empty or longer
    than 10 without a word: no error event, no change.  The REST controller
    has no such check and toggles the reaction all the same. *)
Theorem add_reaction_bad_emoji (s : Socket) (messageId : ObjectId)
    (e : jsstring) (now : Z) (srv : Server) (m : Message) :
  e = [] ∨ (10 < length e)%nat →
  Message_findById messageId (db srv) = Some m →
  content_valid (content m) = true →
  add_reaction s messageId e now srv = srv
  ∧ (addReaction (user s) messageId e now (db srv)).1
    = json 200 (ok_reactions (toggleReaction (user s) e now (reactions m)))
  ∧ Message_findById messageId (addReaction (user s) messageId e now (db srv)).2
    = Some (set_reactions (toggleReaction (user s) e now (reactions m)) m).
Proof.
  intros Hbad Hm Hv. split_and!.
  - unfold add_reaction. destruct Hbad as [->|Hlong]; [done|].
    destruct (Nat.ltb_spec 10 (length e)) as [_|?]; [|lia].
    by rewrite orb_true_r.
  - by rewrite (addReaction_stored _ _ _ _ _ _ Hm Hv).
  - rewrite (addReaction_stored _ _ _ _ _ _ Hm Hv). apply lookup_insert_eq.
Qed.

(** An emoji of eleven code units. *)
Lemma add_reaction_bad_emoji_witness :
  add_reaction alice_live 7%N (js "abcdefghijk") 4000
    {| db := db2; rooms := rooms server2; outbox := [] |}
  = {| db := db2; rooms := rooms server2; outbox := [] |}
  ∧ status (addReaction alice 7%N (js "abcdefghijk") 4000 db2).1 = 200%nat.
Proof.
  assert (10 < length (js "abcdefghijk"))%nat as Hlong by (vm_compute; lia).
  destruct (add_reaction_bad_emoji alice_live 7%N (js "abcdefghijk") 4000
              {| db := db2; rooms := rooms server2; outbox := [] |}
              liked_message (or_intror Hlong) eq_refl eq_refl)
    as (Hdrop & Hrest & _).
  split; [exact Hdrop|]. exact (f_equal status Hrest).
Defined.

(** ** Membership (topicController.js) *)

Lemma includes_spec (l : list ObjectId) (x : ObjectId) :
  includes l x = true ↔ x ∈ l.
Proof. unfold includes. apply bool_decide_eq_true. Qed.

Lemma includes_false (l : list ObjectId) (x : ObjectId) :
  includes l x = false ↔ x ∉ l.
Proof. unfold includes. apply bool_decide_eq_false. Qed.

Lemma elem_of_without (l : list ObjectId) (x v : ObjectId) :
  v ∈ List.filter (λ y, negb (bool_decide (y = x))) l ↔ v ∈ l ∧ v ≠ x.
Proof.
  rewrite !list_elem_of_In, filter_In, negb_true_iff, bool_decide_eq_false.
  done.
Qed.

(** X11: [joinTopic] succeeds exactly for a public topic that the user is no
    member of yet, and then appends the user to the members and changes
    nothing else but [updatedAt]; every other request leaves the store as it
    is.  A private topic answers 403 to everybody, its members included. *)
Theorem joinTopic_outcome (u : User) (topicId : ObjectId) (now : Z) (d : Db)
    (t : Topic) :
  Topic_findById topicId d = Some t →
  (topic_status (joinTopic u topicId now d).1 = 200%nat
   ↔ isPrivate t = false ∧ _id u ∉ members t)
  ∧ (topic_status (joinTopic u topicId now d).1 ≠ 200%nat →
     (joinTopic u topicId now d).2 = d)
  ∧ (topic_status (joinTopic u topicId now d).1 = 200%nat →
     Topic_findById topicId (joinTopic u topicId now d).2
     = Some {| isPrivate := false; creator := creator t;
               members := members t ++ [_id u]; admins := admins t;
               topic_updatedAt := now |}
     ∧ (∀ other, other ≠ topicId →
          Topic_findById other (joinTopic u topicId now d).2
          = Topic_findById other d)
     ∧ messages (joinTopic u topicId now d).2 = messages d)
  ∧ (isPrivate t = true →
     joinTopic u topicId now d
     = (topic_json 403
          (topic_msg "Cannot join private topic without invitation"), d)).
Proof.
  intros Ht. unfold joinTopic. rewrite Ht. cbv zeta.
  destruct (isPrivate t) eqn:Hp; simpl.
  - split_and!; [|done|discriminate|done].
    split; [discriminate|]. by intros [? _].
  - destruct (includes (members t) (_id u)) eqn:Hin; simpl.
    + apply includes_spec in Hin.
      split_and!; [|done|discriminate|discriminate].
      split; [discriminate|]. by intros [_ ?].
    + apply includes_false in Hin.
      split_and!; [done|done| |discriminate].
      intros _. unfold Topic_findById. simpl. split_and!.
      * apply lookup_insert_eq.
      * intros other Hne. by apply lookup_insert_ne.
      * done.
Qed.

(** Bob joins the public topic. *)
Lemma joinTopic_outcome_witness :
  topic_status (joinTopic bob 10%N 5000 db0).1 = 200%nat
  ∧ Topic_findById 10%N (joinTopic bob 10%N 5000 db0).2
    = Some {| isPrivate := false; creator := 1%N; members := [1%N; 2%N];
              admins := [1%N]; topic_updatedAt := 5000 |}.
Proof.
  destruct (joinTopic_outcome bob 10%N 5000 db0 lobby eq_refl)
    as (Hiff & _ & Hok & _).
  assert (topic_status (joinTopic bob 10%N 5000 db0).1 = 200%nat) as H200.
  { apply Hiff. split; [reflexivity|].
    apply (bool_decide_eq_false_1 (2%N ∈ [1%N])). reflexivity. }
  split; [exact H200|]. exact (proj1 (Hok H200)).
Defined.

(** X12: [leaveTopic] succeeds exactly for a member who is not the creator.
    It then takes the user out of the members and out of the admins and
    keeps everybody else; on a private topic the user has lost access.
    Every other request leaves the store as it is. *)
Theorem leaveTopic_outcome (u : User) (topicId : ObjectId) (now : Z) (d : Db)
    (t : Topic) :
  Topic_findById topicId d = Some t →
  (topic_status (leaveTopic u topicId now d).1 = 200%nat
   ↔ _id u ∈ members t ∧ creator t ≠ _id u)
  ∧ (topic_status (leaveTopic u topicId now d).1 ≠ 200%nat →
     (leaveTopic u topicId now d).2 = d)
  ∧ (topic_status (leaveTopic u topicId now d).1 = 200%nat →
     ∃ t', Topic_findById topicId (leaveTopic u topicId now d).2 = Some t'
           ∧ (_id u ∉ members t') ∧ (_id u ∉ admins t')
           ∧ (∀ v, v ≠ _id u →
                (v ∈ members t' ↔ v ∈ members t)
                ∧ (v ∈ admins t' ↔ v ∈ admins t))
           ∧ isPrivate t' = isPrivate t ∧ creator t' = creator t
           ∧ (isPrivate t = true → hasAccess t' u = false)).
Proof.
  intros Ht. unfold leaveTopic. rewrite Ht. cbv zeta.
  destruct (includes (members t) (_id u)) eqn:Hin; simpl.
  - apply includes_spec in Hin.
    destruct (decide (creator t = _id u)) as [Hc|Hc].
    + rewrite (bool_decide_eq_true_2 _ Hc). simpl.
      split_and!; [|done|discriminate].
      split; [discriminate|]. by intros [_ ?].
    + rewrite (bool_decide_eq_false_2 _ Hc). simpl.
      split_and!; [done|done|]. intros _. eexists.
      split; [apply lookup_insert_eq|]. simpl. split_and!.
      * rewrite elem_of_without. tauto.
      * rewrite elem_of_without. tauto.
      * intros v Hv. rewrite !elem_of_without. tauto.
      * done.
      * done.
      * intros Hp. apply hasAccess_denied. simpl. split; [done|].
        rewrite elem_of_without. tauto.
  - apply includes_false in Hin.
    split_and!; [|done|discriminate].
    split; [discriminate|]. by intros [? _].
Qed.

(** Bob, a member of the public topic since he joined it, leaves again. *)
Lemma leaveTopic_outcome_witness :
  topic_status (leaveTopic bob 10%N 6000 (joinTopic bob 10%N 5000 db0).2).1
  = 200%nat.
Proof.
  destruct (leaveTopic_outcome bob 10%N 6000 (joinTopic bob 10%N 5000 db0).2
              {| isPrivate := false; creator := 1%N; members := [1%N; 2%N];
                 admins := [1%N]; topic_updatedAt := 5000 |} eq_refl)
    as (Hiff & _).
  apply Hiff. split; [|discriminate].
  apply (bool_decide_eq_true_1 (2%N ∈ [1%N; 2%N])). reflexivity.
Defined.

Lemma without_absent (l : list ObjectId) (x : ObjectId) :
  x ∉ l → List.filter (λ y, negb (bool_decide (y = x))) l = l.
Proof.
  induction l as [|y l IH]; simpl; [done|].
  intros Hx. apply not_elem_of_cons in Hx as [Hne Hx].
  rewrite bool_decide_eq_false_2 by done. simpl. by rewrite IH.
Qed.

(** X13: joining a public topic and leaving it again gives back the members
    and the admins as they were, for a user who was neither. *)
Theorem join_leave_membership_round_trip (u : User) (topicId : ObjectId)
    (now now' : Z) (d : Db) (t : Topic) :
  Topic_findById topicId d = Some t →
  isPrivate t = false →
  _id u ∉ members t → _id u ∉ admins t → creator t ≠ _id u →
  Topic_findById topicId
    (leaveTopic u topicId now' (joinTopic u topicId now d).2).2
  = Some {| isPrivate := isPrivate t; creator := creator t;
            members := members t; admins := admins t;
            topic_updatedAt := now' |}.
Proof.
  intros Ht Hp Hm Ha Hc.
  unfold joinTopic. rewrite Ht, Hp. cbv zeta.
  rewrite (proj2 (includes_false _ _) Hm). simpl.
  unfold leaveTopic, Topic_findById. simpl. rewrite lookup_insert_eq. simpl.
  assert (includes (members t ++ [_id u]) (_id u) = true) as ->.
  { apply includes_spec, elem_of_app. right. apply list_elem_of_singleton.
    reflexivity. }
  rewrite (bool_decide_eq_false_2 _ Hc). simpl.
  rewrite lookup_insert_eq. do 2 f_equal.
  - rewrite List.filter_app. simpl.
    rewrite (bool_decide_eq_true_2 (_id u = _id u)) by done. simpl.
    rewrite app_nil_r. by apply without_absent.
  - by apply without_absent.
Qed.

Lemma join_leave_membership_round_trip_witness :
  Topic_findById 10%N
    (leaveTopic bob 10%N 6000 (joinTopic bob 10%N 5000 db0).2).2
  = Some {| isPrivate := false; creator := 1%N; members := [1%N];
            admins := [1%N]; topic_updatedAt := 6000 |}.
Proof.
  apply (join_leave_membership_round_trip bob 10%N 5000 6000 db0 lobby eq_refl
           eq_refl).
  - apply (bool_decide_eq_false_1 (2%N ∈ [1%N])). reflexivity.
  - apply (bool_decide_eq_false_1 (2%N ∈ [1%N])). reflexivity.
  - discriminate.
Defined.

Lemma topics_wf_insert (topicId : ObjectId) (t : Topic) (d : Db)
    (ms : gmap ObjectId Message) :
  topics_wf d → topic_wf t →
  topics_wf {| topics := <[topicId := t]> (topics d); messages := ms |}.
Proof.
  intros Hd Ht other t'. simpl. rewrite lookup_insert.
  case_decide; [by intros [= <-]|by apply Hd].
Qed.

(** X14: the controllers keep every topic record well formed: the creator
    stays a member, no member is listed twice, and every admin is a member.
    Neither joining, leaving, deleting a topic nor sending to one breaks
    this. *)
Theorem topics_wf_preserved (srv : Server) :
  topics_wf (db srv) →
  (∀ u topicId now, topics_wf (joinTopic u topicId now (db srv)).2)
  ∧ (∀ u topicId now, topics_wf (leaveTopic u topicId now (db srv)).2)
  ∧ (∀ u topicId, topics_wf (deleteTopic u topicId (db srv)).2)
  ∧ (∀ s c t reply newId now now',
       topics_wf (db (send_message s c t reply newId now now' srv))).
Proof.
  intros Hd. split_and!.
  - intros u topicId now. unfold joinTopic.
    destruct (Topic_findById topicId (db srv)) as [t|] eqn:Ht; [|done].
    cbv zeta. destruct (isPrivate t); [done|].
    destruct (includes (members t) (_id u)) eqn:Hin; [done|]. simpl.
    apply includes_false in Hin.
    destruct (Hd topicId t Ht) as (Hc & Hnd & Hadm).
    apply topics_wf_insert; [done|]. unfold topic_wf. simpl. split_and!.
    + apply elem_of_app. by left.
    + apply NoDup_app. split_and!; [done| |apply NoDup_singleton].
      intros x Hx ->%list_elem_of_singleton. done.
    + intros admin Hin'. apply elem_of_app. left. by apply Hadm.
  - intros u topicId now. unfold leaveTopic.
    destruct (Topic_findById topicId (db srv)) as [t|] eqn:Ht; [|done].
    cbv zeta. destruct (negb _); [done|].
    destruct (decide (creator t = _id u)) as [Hcu|Hcu];
      [by rewrite (bool_decide_eq_true_2 _ Hcu)|].
    rewrite (bool_decide_eq_false_2 _ Hcu). simpl.
    destruct (Hd topicId t Ht) as (Hc & Hnd & Hadm).
    apply topics_wf_insert; [done|]. unfold topic_wf. simpl. split_and!.
    + by apply elem_of_without.
    + apply NoDup_ListNoDup, List.NoDup_filter. by apply NoDup_ListNoDup.
    + intros admin [Hin Hne]%elem_of_without. apply elem_of_without.
      split; [by apply Hadm|done].
  - intros u topicId. unfold deleteTopic.
    destruct (Topic_findById topicId (db srv)) as [t|]; [|done].
    destruct (negb _); [done|]. simpl.
    intros other t'. simpl. rewrite lookup_delete.
    case_decide; [done|by apply Hd].
  - intros s c t reply newId now now'.
    destruct (send_message_cases s c t reply newId now now' srv)
      as [(Hne & Hlen & tp & Ht & Ha)|[e ->]]; [|done].
    rewrite (send_message_sendable _ _ _ _ _ _ _ _ tp Hne Hlen Ht Ha). simpl.
    apply (topics_wf_insert t _ {| topics := topics (db srv);
                                   messages := messages (db srv) |});
      [by destruct (db srv)|].
    apply (Hd t tp Ht).
Qed.

Lemma db0_topics_wf : topics_wf db0.
Proof.
  assert (topic_wf lobby) as Hl.
  { unfold topic_wf. simpl. split_and!; [|apply NoDup_singleton|done].
    apply list_elem_of_singleton. reflexivity. }
  intros topicId t Ht. simpl in Ht.
  apply lookup_insert_Some in Ht as [[_ <-]|[_ Ht]]; [exact Hl|].
  apply lookup_insert_Some in Ht as [[_ <-]|[_ Ht]]; [exact Hl|].
  by rewrite lookup_empty in Ht.
Defined.

Lemma topics_wf_preserved_witness :
  topics_wf (joinTopic bob 10%N 5000 db0).2.
Proof.
  destruct (topics_wf_preserved server0 db0_topics_wf) as (Hjoin & _).
  apply (Hjoin bob 10%N 5000%Z).
Defined.

(** X15: a private topic never gains a member.  Whatever topic a user joins
    or leaves, a private topic stays private and whoever is among its
    members afterwards was so before; so access to it is never won through
    these controllers. *)
Theorem private_topic_closed (u : User) (target topicId : ObjectId) (now : Z)
    (d : Db) (t : Topic) :
  Topic_findById topicId d = Some t →
  isPrivate t = true →
  (∃ t', Topic_findById topicId (joinTopic u target now d).2 = Some t'
         ∧ isPrivate t' = true
         ∧ ∀ v, hasAccess t' v = true → hasAccess t v = true)
  ∧ (∃ t', Topic_findById topicId (leaveTopic u target now d).2 = Some t'
           ∧ isPrivate t' = true
           ∧ ∀ v, hasAccess t' v = true → hasAccess t v = true).
Proof.
  intros Ht Hp. split.
  - destruct (decide (target = topicId)) as [->|Hne].
    + destruct (joinTopic_outcome u topicId now d t Ht) as (_ & _ & _ & Hpriv).
      rewrite (Hpriv Hp). simpl. by exists t.
    + exists t. split_and!; [|done|done].
      unfold joinTopic. destruct (Topic_findById target d) as [t0|]; [|done].
      cbv zeta. destruct (isPrivate t0); [done|].
      destruct (includes _ _); [done|]. simpl.
      unfold Topic_findById in *. simpl. by rewrite lookup_insert_ne.
  - destruct (decide (target = topicId)) as [->|Hne].
    + destruct (leaveTopic_outcome u topicId now d t Ht) as (_ & Hkeep & Hok).
      destruct (decide (topic_status (leaveTopic u topicId now d).1 = 200%nat))
        as [H200|Hnot].
      * destruct (Hok H200) as (t' & Ht' & _ & _ & Hothers & Hp' & _ & Hlost).
        exists t'. split_and!; [done|congruence|].
        intros v Hv. apply hasAccess_spec in Hv as [Hv|Hv]; [congruence|].
        apply hasAccess_spec. right.
        destruct (decide (_id v = _id u)) as [Heq|Hidne].
        -- exfalso. assert (hasAccess t' u = true) as Hu
             by (apply hasAccess_spec; right; by rewrite <- Heq).
           rewrite (Hlost Hp) in Hu. discriminate.
        -- by apply (Hothers (_id v) Hidne).
      * rewrite (Hkeep Hnot). by exists t.
    + exists t. split_and!; [|done|done].
      unfold leaveTopic. destruct (Topic_findById target d) as [t0|]; [|done].
      cbv zeta. destruct (negb _); [done|].
      destruct (bool_decide _); [done|]. simpl.
      unfold Topic_findById in *. simpl. by rewrite lookup_insert_ne.
Qed.

(** Bob cannot join alice's private topic. *)
Lemma private_topic_closed_witness :
  ∃ t', Topic_findById 20%N (joinTopic bob 20%N 5000 db0).2 = Some t'
        ∧ isPrivate t' = true
        ∧ ∀ v, hasAccess t' v = true → hasAccess backroom v = true.
Proof.
  destruct (private_topic_closed bob 20%N 20%N 5000 db0 backroom eq_refl
              eq_refl) as [Hjoin _].
  exact Hjoin.
Defined.

(** ** Deleting a topic *)

(** X16: only the creator deletes a topic, and the deletion takes the topic
    record alone.  Its messages stay in the store, where nobody can delete
    them any more, the sender included: [deleteMessage] fails with 500 on
    each.  Sockets can neither join the topic nor send to it. *)
Theorem deleteTopic_orphans (u : User) (topicId : ObjectId) (d : Db) (t : Topic) :
  Topic_findById topicId d = Some t →
  creator t = _id u →
  (∀ v, creator t ≠ _id v →
     deleteTopic v topicId d
     = (topic_json 403 (topic_msg "Only topic creator can delete the topic"), d))
  ∧ (deleteTopic u topicId d).1
    = topic_json 200 (topic_done "Topic deleted successfully")
  ∧ Topic_findById topicId (deleteTopic u topicId d).2 = None
  ∧ messages (deleteTopic u topicId d).2 = messages d
  ∧ (∀ v messageId m,
       Message_findById messageId d = Some m → topic m = topicId →
       deleteMessage v messageId (deleteTopic u topicId d).2
       = (json 500 thrown, (deleteTopic u topicId d).2))
  ∧ (∀ s srv, db srv = (deleteTopic u topicId d).2 →
       join_topic s topicId srv
       = (s, socket_emit s (error "Topic not found") srv))
  ∧ (∀ s c reply newId now now' srv,
       db srv = (deleteTopic u topicId d).2 →
       trim c ≠ [] → (length c ≤ 1000)%nat →
       send_message s c topicId reply newId now now' srv
       = socket_emit s (message_error "Topic not found") srv).
Proof.
  intros Ht Hc.
  assert (deleteTopic u topicId d
          = (topic_json 200 (topic_done "Topic deleted successfully"),
             Topic_findByIdAndDelete topicId d)) as Hdel.
  { unfold deleteTopic. rewrite Ht.
    by rewrite (bool_decide_eq_true_2 _ Hc). }
  assert (Topic_findById topicId (Topic_findByIdAndDelete topicId d) = None)
    as Hgone by apply lookup_delete_eq.
  rewrite Hdel. simpl. split_and!; [|done|done|done| | |].
  - intros v Hv. unfold deleteTopic. rewrite Ht.
    by rewrite (bool_decide_eq_false_2 _ Hv).
  - intros v messageId m Hm Htopic. unfold deleteMessage.
    assert (Message_findById messageId (Topic_findByIdAndDelete topicId d)
            = Some m) as -> by done.
    by rewrite Htopic, Hgone.
  - intros s srv Hdb. unfold join_topic. by rewrite Hdb, Hgone.
  - intros s c reply newId now now' srv Hdb Hne Hlen. unfold send_message.
    assert (c ≠ []) as Hc' by (intros ->; by apply Hne).
    rewrite (bool_decide_eq_false_2 _ Hc'), (bool_decide_eq_false_2 _ Hne).
    simpl. destruct (Nat.ltb_spec 1000 (length c)) as [?|_]; [lia|].
    by rewrite Hdb, Hgone.
Qed.

(** Alice deletes the public topic; bob's message in it can no longer be
    deleted. *)
Lemma deleteTopic_orphans_witness :
  deleteMessage bob 7%N (deleteTopic alice 10%N db1).2
  = (json 500 thrown, (deleteTopic alice 10%N db1).2).
Proof.
  destruct (deleteTopic_orphans alice 10%N db1 lobby eq_refl eq_refl)
    as (_ & _ & _ & _ & Horphan & _).
  apply (Horphan bob 7%N bobs_message eq_refl eq_refl).
Defined.

(** ** The gates of a topic *)

Lemma includes_ref_populate (ids : list ObjectId) (x : ObjectId) :
  includes_ref (populate ids) x = false.
Proof. unfold includes_ref, populate. by induction ids. Qed.

(** X17: reading the history of a topic, joining its room and sending to it
    are refused for exactly the same users: those for whom the topic is
    private and who are not among its members.  Reading the topic itself is
    not: [getTopicById] looks for the user among the populated members, who
    are documents, and so refuses a private topic to everybody, its members
    included. *)
Theorem access_gates (s : Socket) (topicId : ObjectId) (srv : Server)
    (t : Topic) :
  Topic_findById topicId (db srv) = Some t →
  (∀ query_page query_limit,
     getMessages (user s) topicId query_page query_limit (db srv)
     = messages_refused 403 "Access denied to this topic"
     ↔ hasAccess t (user s) = false)
  ∧ (join_topic s topicId srv
     = (s, socket_emit s (error "Access denied to this topic") srv)
     ↔ hasAccess t (user s) = false)
  ∧ (∀ c reply newId now now',
       trim c ≠ [] → (length c ≤ 1000)%nat →
       send_message s c topicId reply newId now now' srv
       = socket_emit s (message_error "Access denied to this topic") srv
       ↔ hasAccess t (user s) = false)
  ∧ (getTopicById (user s) topicId (db srv)
     = topic_json 403 (topic_msg "You do not have access to this topic")
     ↔ isPrivate t = true)
  ∧ (isPrivate t = false →
     getTopicById (user s) topicId (db srv) = topic_json 200 (topic_detail t))
  ∧ (isPrivate t = true → _id (user s) ∈ members t →
     getTopicById (user s) topicId (db srv)
     = topic_json 403 (topic_msg "You do not have access to this topic")
     ∧ hasAccess t (user s) = true).
Proof.
  intros Ht.
  assert (getTopicById (user s) topicId (db srv)
          = if isPrivate t
            then topic_json 403
                   (topic_msg "You do not have access to this topic")
            else topic_json 200 (topic_detail t)) as Hread.
  { unfold getTopicById. rewrite Ht. cbv zeta.
    rewrite includes_ref_populate. by destruct (isPrivate t). }
  split_and!.
  - intros qp ql. unfold getMessages. rewrite Ht.
    destruct (hasAccess t (user s)); simpl; split; done.
  - destruct (hasAccess t (user s)) eqn:Ha.
    + rewrite (join_topic_granted_eq s topicId srv t Ht Ha).
      split; [intros H; apply (f_equal snd) in H; simpl in H; clash H | done].
    + unfold join_topic. rewrite Ht, Ha. done.
  - intros c reply newId now now' Hne Hlen.
    destruct (hasAccess t (user s)) eqn:Ha.
    + rewrite (send_message_sendable _ _ _ _ _ _ _ _ t Hne Hlen Ht Ha).
      split; [intros H; clash H | done].
    + unfold send_message.
      assert (c ≠ []) as Hc' by (intros ->; by apply Hne).
      rewrite (bool_decide_eq_false_2 _ Hc'), (bool_decide_eq_false_2 _ Hne).
      simpl. destruct (Nat.ltb_spec 1000 (length c)) as [?|_]; [lia|].
      by rewrite Ht, Ha.
  - rewrite Hread. by destruct (isPrivate t).
  - intros Hpub. by rewrite Hread, Hpub.
  - intros Hpriv Hmember. rewrite Hread, Hpriv. split; [done|].
    unfold hasAccess. rewrite Hpriv. simpl.
    by apply includes_spec.
Qed.

(** Alice and her own private topic: she may read its history and join its
    room, but not read the topic. *)
Lemma access_gates_witness :
  getTopicById alice 20%N db0
  = topic_json 403 (topic_msg "You do not have access to this topic")
  ∧ hasAccess backroom alice = true
  ∧ getMessages alice 20%N None None db0
    ≠ messages_refused 403 "Access denied to this topic".
Proof.
  destruct (access_gates alice_socket 20%N server0 backroom eq_refl)
    as (Hhistory & _ & _ & _ & _ & Hmember).
  destruct Hmember as [Hread Haccess].
  - reflexivity.
  - apply (bool_decide_eq_true_1 (1%N ∈ [1%N])). reflexivity.
  - split_and!; [exact Hread|exact Haccess|].
    intros Hrefused. apply (Hhistory None None) in Hrefused.
    simpl in Haccess, Hrefused. congruence.
Defined.

(** ** The list of topics *)

#[global] Instance updated_later_total : Total updated_later.
Proof. intros a b. unfold updated_later. lia. Qed.

#[global] Instance created_later_total : Total created_later.
Proof. intros a b. unfold created_later. lia. Qed.

#[global] Instance created_later_trans : Transitive created_later.
Proof. intros a b c. unfold created_later. lia. Qed.

(** X18: [getTopics] lists exactly the topics that the user may open, each
    once, the most recently updated first. *)
Theorem getTopics_lists_accessible (u : User) (d : Db) :
  (∀ topicId t,
     (topicId, t) ∈ getTopics u d
     ↔ Topic_findById topicId d = Some t ∧ hasAccess t u = true)
  ∧ Sorted updated_later (getTopics u d)
  ∧ NoDup (getTopics u d).
Proof.
  unfold getTopics. split_and!.
  - intros topicId t. rewrite merge_sort_Permutation.
    rewrite list_elem_of_filter, elem_of_map_to_list, hasAccess_spec.
    unfold listed, Topic_findById. simpl.
    destruct (isPrivate t); intuition congruence.
  - apply Sorted_merge_sort, _.
  - rewrite merge_sort_Permutation.
    apply NoDup_filter, NoDup_map_to_list.
Qed.

(** ** History *)

Lemma or_default_pos (q : option nat) (dflt : nat) :
  (1 ≤ dflt)%nat → (1 ≤ or_default q dflt)%nat.
Proof. destruct q as [[|n]|]; simpl; lia. Qed.

Lemma getMessages_granted (u : User) (topicId : ObjectId)
    (qp ql : option nat) (d : Db) (t : Topic) :
  Topic_findById topicId d = Some t →
  hasAccess t u = true →
  getMessages u topicId qp ql d
  = messages_page
      (rev (take (or_default ql 50)
              (drop ((or_default qp 1 - 1) * or_default ql 50)
                 (newest_first topicId d))))
      {| currentPage := or_default qp 1;
         totalPages := ceil_div (length (newest_first topicId d))
                         (or_default ql 50);
         totalMessages := length (newest_first topicId d);
         hasMore :=
           ((or_default qp 1 - 1) * or_default ql 50
            + length (take (or_default ql 50)
                        (drop ((or_default qp 1 - 1) * or_default ql 50)
                           (newest_first topicId d)))
            <? length (newest_first topicId d))%nat |}.
Proof. intros Ht Ha. unfold getMessages. by rewrite Ht, Ha. Qed.

Lemma newest_first_elem (topicId : ObjectId) (d : Db) (entry : ObjectId * Message) :
  entry ∈ newest_first topicId d
  ↔ Message_findById entry.1 d = Some entry.2 ∧ topic entry.2 = topicId.
Proof.
  unfold newest_first. rewrite merge_sort_Permutation, list_elem_of_filter.
  destruct entry as [messageId m]. rewrite elem_of_map_to_list. simpl.
  unfold Message_findById. tauto.
Qed.

Lemma newest_first_sorted (topicId : ObjectId) (d : Db) :
  StronglySorted created_later (newest_first topicId d).
Proof. apply StronglySorted_merge_sort; apply _. Qed.

Lemma newest_first_NoDup (topicId : ObjectId) (d : Db) :
  NoDup (newest_first topicId d).
Proof.
  unfold newest_first. rewrite merge_sort_Permutation.
  apply NoDup_filter, NoDup_map_to_list.
Qed.

Lemma StronglySorted_drop {A} (R : relation A) (n : nat) (l : list A) :
  StronglySorted R l → StronglySorted R (drop n l).
Proof.
  revert l. induction n as [|n IH]; intros l Hl; [exact Hl|].
  destruct l as [|x l]; [exact Hl|]. simpl. apply IH.
  by apply StronglySorted_inv in Hl as [? _].
Qed.

Lemma StronglySorted_take {A} (R : relation A) (n : nat) (l : list A) :
  StronglySorted R l → StronglySorted R (take n l).
Proof.
  revert l. induction n as [|n IH]; intros l Hl; [constructor|].
  destruct l as [|x l]; [constructor|]. simpl.
  apply StronglySorted_inv in Hl as [Hl Hx]. constructor; [by apply IH|].
  apply List.Forall_forall. intros y Hy.
  apply (proj1 (List.Forall_forall _ _) Hx).
  apply list_elem_of_In. apply list_elem_of_In in Hy.
  by apply (subseteq_take n l).
Qed.

Lemma StronglySorted_rev {A} (R : relation A) (l : list A) :
  StronglySorted R l → StronglySorted (flip R) (rev l).
Proof.
  induction 1 as [|x l Hl IH Hx]; simpl; [constructor|].
  apply StronglySorted_app. split; [|split; [exact IH|repeat constructor]].
  intros a b Ha ->%list_elem_of_singleton. unfold flip.
  apply (proj1 (List.Forall_forall _ _) Hx).
  apply list_elem_of_In in Ha. by apply List.in_rev.
Qed.

Lemma ceil_div_lt (page total limit : nat) :
  (1 ≤ limit)%nat →
  (page < ceil_div total limit)%nat ↔ (page * limit < total)%nat.
Proof.
  intros Hl. unfold ceil_div. split.
  - intros Hp.
    assert (limit * S page ≤ total + limit - 1)%nat; [|lia].
    etransitivity; [|apply (Nat.Div0.mul_div_le _ limit)].
    apply Nat.mul_le_mono_l. lia.
  - intros Hp. apply Nat.div_le_lower_bound with (q := S page); lia.
Qed.

(** X19: for a user with access, [getMessages] answers with the page asked
    for: at most [limit] messages of this topic, all of them stored, the
    oldest first.  [hasMore] is true exactly when older messages remain,
    which is exactly when the page is not the last; a page past the last is
    empty. *)
Theorem getMessages_page (u : User) (topicId : ObjectId) (qp ql : option nat)
    (d : Db) (t : Topic) :
  Topic_findById topicId d = Some t →
  hasAccess t u = true →
  ∃ msgs p,
    getMessages u topicId qp ql d = messages_page msgs p
    ∧ (length msgs ≤ or_default ql 50)%nat
    ∧ StronglySorted created_earlier msgs
    ∧ (∀ entry, entry ∈ msgs →
         Message_findById entry.1 d = Some entry.2 ∧ topic entry.2 = topicId)
    ∧ currentPage p = or_default qp 1
    ∧ (hasMore p = true
       ↔ (or_default qp 1 * or_default ql 50 < totalMessages p)%nat)
    ∧ (hasMore p = true ↔ (currentPage p < totalPages p)%nat)
    ∧ ((totalPages p < currentPage p)%nat → msgs = []).
Proof.
  intros Ht Ha. rewrite (getMessages_granted u topicId qp ql d t Ht Ha).
  pose proof (or_default_pos qp 1 (le_n 1)) as Hpage.
  assert (1 ≤ or_default ql 50)%nat as Hlimit by (apply or_default_pos; lia).
  set (page := or_default qp 1) in *. set (limit := or_default ql 50) in *.
  set (all := newest_first topicId d).
  assert ((page - 1) * limit + length (take limit (drop ((page - 1) * limit) all))
          < length all ↔ page * limit < length all)%nat as Hmore.
  { rewrite length_take, length_drop. nia. }
  eexists _, _. split; [reflexivity|]. simpl. split_and!.
  - rewrite length_rev, length_take. lia.
  - apply (StronglySorted_rev created_later).
    apply StronglySorted_take, StronglySorted_drop, newest_first_sorted.
  - intros entry Hin. apply newest_first_elem.
    apply list_elem_of_In, List.in_rev, list_elem_of_In in Hin.
    apply (subseteq_take limit) in Hin. by apply (subseteq_drop _ all) in Hin.
  - done.
  - rewrite Nat.ltb_lt. exact Hmore.
  - rewrite Nat.ltb_lt, Hmore. symmetry. by apply ceil_div_lt.
  - intros Hpast.
    assert (¬ (page - 1 < ceil_div (length all) limit))%nat as Hlast by lia.
    rewrite (ceil_div_lt _ _ _ Hlimit) in Hlast.
    rewrite drop_ge by lia. by rewrite take_nil.
Qed.

Lemma getMessages_page_witness :
  ∃ msgs p,
    getMessages bob 10%N (Some 2%nat) (Some 2%nat) db3 = messages_page msgs p
    ∧ (length msgs ≤ 2)%nat
    ∧ StronglySorted created_earlier msgs
    ∧ (∀ entry, entry ∈ msgs →
         Message_findById entry.1 db3 = Some entry.2 ∧ topic entry.2 = 10%N)
    ∧ currentPage p = 2%nat
    ∧ (hasMore p = true ↔ (2 * 2 < totalMessages p)%nat)
    ∧ (hasMore p = true ↔ (currentPage p < totalPages p)%nat)
    ∧ ((totalPages p < currentPage p)%nat → msgs = []).
Proof.
  exact (getMessages_page bob 10%N (Some 2%nat) (Some 2%nat) db3 lobby
           eq_refl eq_refl).
Defined.

Lemma pages_concat {A} (all : list A) (limit k : nat) :
  concat (map (λ page, rev (take limit (drop ((page - 1) * limit) all)))
              (rev (seq 1 k)))
  = rev (take (k * limit) all).
Proof.
  induction k as [|k IH]; [done|].
  rewrite seq_S, rev_app_distr. simpl. rewrite IH.
  rewrite <- rev_app_distr, Nat.sub_0_r.
  by rewrite take_take_drop, (Nat.add_comm (k * limit) limit).
Qed.

Lemma ceil_div_covers (total limit : nat) :
  (1 ≤ limit)%nat → (total ≤ ceil_div total limit * limit)%nat.
Proof.
  intros Hl.
  destruct (Nat.le_gt_cases total (ceil_div total limit * limit)) as [|Hlt];
    [done|].
  apply (ceil_div_lt _ _ _ Hl) in Hlt. lia.
Qed.

(** X20: the pages of a topic, asked for from the last to the first and put
    one after the other, are the whole history of the topic: every stored
    message of the topic exactly once, the oldest first. *)
Theorem history_pages_cover (u : User) (topicId : ObjectId) (ql : option nat)
    (d : Db) (t : Topic) :
  Topic_findById topicId d = Some t →
  hasAccess t u = true →
  let pages := ceil_div (length (newest_first topicId d)) (or_default ql 50) in
  let history :=
    concat (map (λ page, page_messages
                           (getMessages u topicId (Some page) ql d))
                (rev (seq 1 pages))) in
  history = rev (newest_first topicId d)
  ∧ NoDup history
  ∧ StronglySorted created_earlier history
  ∧ ∀ messageId m,
      (messageId, m) ∈ history
      ↔ Message_findById messageId d = Some m ∧ topic m = topicId.
Proof.
  intros Ht Ha. cbv zeta.
  assert (1 ≤ or_default ql 50)%nat as Hlimit by (apply or_default_pos; lia).
  set (limit := or_default ql 50) in *. set (all := newest_first topicId d).
  assert (concat (map (λ page, page_messages
                                 (getMessages u topicId (Some page) ql d))
                      (rev (seq 1 (ceil_div (length all) limit))))
          = rev all) as ->.
  { transitivity (rev (take (ceil_div (length all) limit * limit) all));
      [|by rewrite take_ge by (by apply ceil_div_covers)].
    rewrite <- pages_concat. f_equal. apply map_ext_in.
    intros page [Hpage _]%in_rev%in_seq.
    rewrite (getMessages_granted u topicId _ ql d t Ht Ha). simpl.
    by destruct page as [|page]; [lia|]. }
  split_and!.
  - done.
  - apply NoDup_ListNoDup, List.NoDup_rev, NoDup_ListNoDup, newest_first_NoDup.
  - apply (StronglySorted_rev created_later), newest_first_sorted.
  - intros messageId m. rewrite <- (newest_first_elem topicId d (messageId, m)).
    rewrite !list_elem_of_In. symmetry. apply List.in_rev.
Qed.

(** Two pages of two cover the three messages of the public topic. *)
Lemma history_pages_cover_witness :
  concat (map (λ page, page_messages
                         (getMessages bob 10%N (Some page) (Some 2%nat) db3))
              (rev (seq 1 (ceil_div (length (newest_first 10%N db3)) 2))))
  = rev (newest_first 10%N db3).
Proof.
  exact (proj1 (history_pages_cover bob 10%N (Some 2%nat) db3 lobby
                  eq_refl eq_refl)).
Defined.

(** ** Loading the history in the browser *)

Lemma hasMore_page {A} (all : list A) (page limit : nat) :
  (1 ≤ page)%nat → (1 ≤ limit)%nat →
  ((page - 1) * limit + length (take limit (drop ((page - 1) * limit) all))
   <? length all)%nat
  = (page * limit <? length all)%nat.
Proof.
  intros Hp Hl. rewrite length_take, length_drop.
  assert (page * limit = (page - 1) * limit + limit)%nat as ->
    by (destruct page; [lia|]; simpl; rewrite Nat.sub_0_r; lia).
  destruct (Nat.ltb_spec ((page - 1) * limit + limit) (length all));
    destruct (Nat.ltb_spec ((page - 1) * limit
                            + limit `min` (length all - (page - 1) * limit))
                (length all)); try done; lia.
Qed.

Lemma getMessages_page_of (u : User) (topicId : ObjectId) (page : nat)
    (d : Db) (t : Topic) :
  Topic_findById topicId d = Some t → hasAccess t u = true →
  (1 ≤ page)%nat →
  getMessages u topicId (Some page) (Some 50%nat) d
  = messages_page
      (rev (take 50 (drop ((page - 1) * 50) (newest_first topicId d))))
      {| currentPage := page;
         totalPages := ceil_div (length (newest_first topicId d)) 50;
         totalMessages := length (newest_first topicId d);
         hasMore := (page * 50 <? length (newest_first topicId d))%nat |}.
Proof.
  intros Ht Ha Hp. rewrite (getMessages_granted u topicId _ _ d t Ht Ha).
  assert (or_default (Some page) 1 = page) as -> by (by destruct page; [lia|]).
  change (or_default (Some 50%nat) 50) with 50%nat.
  by rewrite hasMore_page by lia.
Qed.

Lemma loadMessages_first (u : User) (topicId : ObjectId) (d : Db)
    (st : ChatState) (t : Topic) :
  Topic_findById topicId d = Some t → hasAccess t u = true →
  loaded topicId d (loadMessages u topicId 1 false d st)
  ∧ chat_currentPage (loadMessages u topicId 1 false d st) = 1%nat.
Proof.
  intros Ht Ha. unfold loadMessages.
  rewrite (getMessages_page_of u topicId 1 d t Ht Ha (le_n 1)).
  unfold loaded.
  cbn [chat_messages chat_hasMore chat_currentPage chat_currentTopic
       hasMore currentPage].
  change ((1 - 1) * 50)%nat with 0%nat. change (1 * 50)%nat with 50%nat.
  done.
Qed.

Lemma loadMoreMessages_next (u : User) (topicId : ObjectId) (d : Db)
    (st : ChatState) (t : Topic) :
  Topic_findById topicId d = Some t → hasAccess t u = true →
  loaded topicId d st →
  loaded topicId d (loadMoreMessages u d st)
  ∧ (chat_hasMore st = true →
     chat_currentPage (loadMoreMessages u d st) = S (chat_currentPage st))
  ∧ (chat_hasMore st = false → loadMoreMessages u d st = st).
Proof.
  intros Ht Ha Hloaded. pose proof Hloaded as (Htopic & Hpage & Hmsgs & Hmore).
  unfold loadMoreMessages. rewrite Htopic.
  destruct (chat_hasMore st) eqn:Hhas; [|done].
  unfold loadMessages.
  rewrite (getMessages_page_of u topicId _ d t Ht Ha) by lia.
  unfold loaded.
  cbn [chat_messages chat_hasMore chat_currentPage chat_currentTopic
       hasMore currentPage].
  rewrite Nat.add_sub.
  split_and!; [done|lia| |done|intros _; lia|done].
  rewrite Hmsgs, <- rev_app_distr, take_take_drop. do 2 f_equal. lia.
Qed.

(** X21: a browser that opens a topic and then scrolls up [k] times, with
    nothing written in between, shows the newest [50 (k + 1)] messages of
    the topic, oldest first and each once; once that reaches the whole
    history the state says that nothing more is to be loaded. *)
Theorem load_history_complete (u : User) (topicId : ObjectId) (k : nat)
    (d : Db) (st : ChatState) (t : Topic) :
  Topic_findById topicId d = Some t →
  hasAccess t u = true →
  chat_messages (load_history u topicId k d st)
  = rev (take (S k * 50) (newest_first topicId d))
  ∧ NoDup (chat_messages (load_history u topicId k d st))
  ∧ ((length (newest_first topicId d) ≤ S k * 50)%nat →
     chat_messages (load_history u topicId k d st)
     = rev (newest_first topicId d)
     ∧ chat_hasMore (load_history u topicId k d st) = false).
Proof.
  intros Ht Ha.
  assert (loaded topicId d (load_history u topicId k d st)
          ∧ (chat_currentPage (load_history u topicId k d st) ≤ S k)%nat
          ∧ (chat_currentPage (load_history u topicId k d st) = S k
             ∨ chat_hasMore (load_history u topicId k d st) = false))
    as (Hloaded & Hle & Hlast).
  { induction k as [|k (IHl & IHle & IHlast)].
    - destruct (loadMessages_first u topicId d st t Ht Ha) as [Hl Hp].
      unfold load_history. simpl. rewrite Hp. eauto.
    - unfold load_history in *. simpl.
      destruct (loadMoreMessages_next u topicId d _ t Ht Ha IHl)
        as (Hl & Hgrow & Hstay).
      split; [done|].
      destruct (chat_hasMore (Nat.iter k _ _)) eqn:Hhas.
      + rewrite (Hgrow eq_refl). destruct IHlast as [->|?]; [|done].
        split; [lia|by left].
      + rewrite (Hstay eq_refl). split; [lia|]. right. exact Hhas. }
  destruct Hloaded as (_ & Hpage & Hmsgs & Hmore).
  assert (chat_messages (load_history u topicId k d st)
          = rev (take (S k * 50) (newest_first topicId d))) as Hshown.
  { rewrite Hmsgs. destruct Hlast as [->|Hdone]; [done|].
    rewrite Hdone in Hmore. symmetry in Hmore.
    apply Nat.ltb_ge in Hmore. rewrite !take_ge; [done|nia|lia]. }
  split_and!.
  - exact Hshown.
  - rewrite Hshown. apply NoDup_ListNoDup, List.NoDup_rev, NoDup_ListNoDup.
    eapply sublist_NoDup; [apply newest_first_NoDup|apply sublist_take].
  - intros Hall. split.
    + rewrite Hshown. by rewrite take_ge.
    + destruct Hlast as [Hp|Hdone]; [|done].
      rewrite Hmore, Hp. apply Nat.ltb_ge. lia.
Qed.

(** Bob opens the public topic with its three messages. *)
Lemma load_history_complete_witness :
  chat_messages (load_history bob 10%N 0 db3 chat0)
  = rev (newest_first 10%N db3)
  ∧ chat_hasMore (load_history bob 10%N 0 db3 chat0) = false.
Proof.
  destruct (load_history_complete bob 10%N 0 db3 chat0 lobby eq_refl eq_refl)
    as (_ & _ & Hall).
  apply Hall. vm_compute. lia.
Defined.

(** ** What the room sees of a send *)

Lemma received_emit_to (conn : SocketId) (to : gset SocketId) (e : Event)
    (srv srv' : Server) :
  outbox srv' = outbox srv ++ [{| recipients := to; event := e |}] →
  received conn srv srv' = if decide (conn ∈ to) then [e] else [].
Proof.
  intros Hout. unfold received, inbox. rewrite Hout, drop_app_length. simpl.
  destruct (decide (conn ∈ to)) as [Hin|Hin].
  - by rewrite (bool_decide_eq_true_2 _ Hin).
  - by rewrite (bool_decide_eq_false_2 _ Hin).
Qed.

Lemma handleNewMessage_new (message : ObjectId * Message)
    (prev : list (ObjectId * Message)) :
  message.1 ∉ prev.*1 → handleNewMessage message prev = prev ++ [message].
Proof.
  intros Hnew. unfold handleNewMessage.
  destruct (existsb _ prev) eqn:Hex; [|done].
  apply existsb_exists in Hex as (msg & Hin & Heq%bool_decide_eq_true).
  destruct Hnew. rewrite <- Heq. apply list_elem_of_fmap.
  exists msg. split; [done|]. by apply list_elem_of_In.
Qed.

Lemma handleNewMessage_known (message : ObjectId * Message)
    (prev : list (ObjectId * Message)) :
  message.1 ∈ prev.*1 → handleNewMessage message prev = prev.
Proof.
  intros (msg & Heq & Hin)%list_elem_of_fmap. unfold handleNewMessage.
  assert (existsb (λ msg0 : ObjectId * Message,
                     bool_decide (msg0.1 = message.1)) prev = true) as ->;
    [|done].
  apply existsb_exists. exists msg. split; [by apply list_elem_of_In|].
  by apply bool_decide_eq_true.
Qed.

(** X22: a message that was sent is shown once, and as stored, by every
    connection of the room: the browser appends the stored document to its
    view, a second delivery of the same message changes nothing, and the
    view keeps its ids distinct.  A connection outside the room is sent
    nothing. *)
Theorem sent_message_shown (s : Socket) (c : jsstring) (t : ObjectId)
    (reply : option ObjectId) (newId : ObjectId) (now now' : Z) (srv : Server)
    (conn : SocketId) (prev : list (ObjectId * Message)) :
  sendable s c t srv →
  NoDup prev.*1 → newId ∉ prev.*1 →
  let srv' := send_message s c t reply newId now now' srv in
  let events := received conn srv srv' in
  (conn ∈ live t srv →
     ∃ m, Message_findById newId (db srv') = Some m
          ∧ chat_after events prev = prev ++ [(newId, m)]
          ∧ chat_after events (chat_after events prev) = chat_after events prev
          ∧ NoDup (chat_after events prev).*1)
  ∧ (conn ∉ live t srv → events = [] ∧ chat_after events prev = prev).
Proof.
  intros (Hne & Hlen & tp & Ht & Ha) Hnd Hnew. cbv zeta.
  rewrite (send_message_sendable _ _ _ _ _ _ _ _ tp Hne Hlen Ht Ha).
  rewrite (received_emit_to conn (live t srv)
             (new_message newId (sent_message s c t reply now)) srv)
    by reflexivity.
  split.
  - intros Hin. rewrite decide_True by done.
    exists (sent_message s c t reply now). simpl.
    rewrite (handleNewMessage_new (newId, _) prev Hnew).
    split_and!.
    + apply lookup_insert_eq.
    + done.
    + apply handleNewMessage_known. rewrite fmap_app. simpl.
      apply elem_of_app. right. apply list_elem_of_singleton. reflexivity.
    + rewrite fmap_app. simpl. apply NoDup_app. split_and!; [done| |].
      * intros x Hx ->%list_elem_of_singleton. done.
      * apply NoDup_singleton.
  - intros Hout. by rewrite decide_False.
Qed.

(** Alice sees her own message in the public topic. *)
Lemma sent_message_shown_witness :
  ∃ m, Message_findById 7%N
         (db (send_message alice_socket (js "hi") 10%N None 7%N 50 51 server1))
       = Some m
       ∧ chat_after
           (received 100%N server1
              (send_message alice_socket (js "hi") 10%N None 7%N 50 51 server1))
           []
         = [(7%N, m)].
Proof.
  assert (sendable alice_socket (js "hi") 10%N server1) as Hs.
  { split_and!; [discriminate|vm_compute; lia|].
    exists lobby. split; reflexivity. }
  destruct (sent_message_shown alice_socket (js "hi") 10%N None 7%N 50 51
              server1 100%N [] Hs (NoDup_nil_2 : NoDup ([] : list ObjectId)))
    as [Hin _].
  - apply not_elem_of_nil.
  - destruct Hin as (m & Hm & Hview & _).
    + apply (bool_decide_eq_true_1 (100%N ∈ ({[100%N]} : gset SocketId))).
      reflexivity.
    + exists m. split; [exact Hm|exact Hview].
Defined.

(** ** What the room sees of a reaction *)

Lemma handleReactionUpdate_ids (messageId : ObjectId) (rs : list Reaction)
    (prev : list (ObjectId * Message)) :
  (handleReactionUpdate messageId rs prev).*1 = prev.*1.
Proof.
  unfold handleReactionUpdate. induction prev as [|msg prev IH]; [done|].
  simpl. f_equal; [by destruct (bool_decide _)|exact IH].
Qed.

Lemma handleReactionUpdate_elem (messageId : ObjectId) (rs : list Reaction)
    (prev : list (ObjectId * Message)) (entry : ObjectId * Message) :
  entry ∈ handleReactionUpdate messageId rs prev
  ↔ ∃ old, old ∈ prev
           ∧ entry = if bool_decide (old.1 = messageId)
                     then (old.1, set_reactions rs old.2) else old.
Proof.
  unfold handleReactionUpdate. rewrite list_elem_of_In, in_map_iff.
  split; intros (old & H1 & H2); exists old.
  - by rewrite list_elem_of_In.
  - by rewrite <- list_elem_of_In.
Qed.

(** X23: after a reaction through the socket, every connection of the
    message's room shows for that message exactly the reaction list that is
    now stored; the view keeps its messages and their order, and no message
    changes in anything but its reactions. *)
Theorem reaction_update_shown (s : Socket) (messageId : ObjectId) (e : jsstring)
    (now : Z) (srv : Server) (m : Message) (conn : SocketId)
    (prev : list (ObjectId * Message)) :
  e ≠ [] → (length e ≤ 10)%nat →
  Message_findById messageId (db srv) = Some m →
  content_valid (content m) = true →
  conn ∈ live (topic m) srv →
  let srv' := add_reaction s messageId e now srv in
  let view := chat_after (received conn srv srv') prev in
  view.*1 = prev.*1
  ∧ (∀ entry, entry ∈ view → entry.1 = messageId →
       Some (reactions entry.2)
       = reactions <$> Message_findById messageId (db srv'))
  ∧ (∀ entry, entry.1 ≠ messageId → entry ∈ view ↔ entry ∈ prev)
  ∧ (∀ entry, entry ∈ view →
       ∃ old, old ∈ prev ∧ old.1 = entry.1 ∧ same_but_reactions old.2 entry.2).
Proof.
  intros He Hlen Hm Hv Hin. cbv zeta.
  rewrite (add_reaction_stored _ _ _ _ _ _ He Hlen Hm Hv).
  rewrite (addReaction_stored _ _ _ _ _ _ Hm Hv).
  rewrite (received_emit_to conn (live (topic m) srv)
             (message_reaction_updated messageId
                (toggleReaction (user s) e now (reactions m))) srv)
    by reflexivity.
  rewrite decide_True by done. simpl. split_and!.
  - apply handleReactionUpdate_ids.
  - intros entry (old & Hold & ->)%handleReactionUpdate_elem Hid.
    unfold Message_findById. simpl. rewrite lookup_insert_eq. simpl.
    destruct (bool_decide (old.1 = messageId)) eqn:Hb; [done|].
    by apply bool_decide_eq_false in Hb.
  - intros entry Hid. rewrite handleReactionUpdate_elem. split.
    + intros (old & Hold & ->).
      destruct (bool_decide (old.1 = messageId)) eqn:Hb; [|done].
      by apply bool_decide_eq_true in Hb.
    + intros Hentry. exists entry. split; [done|].
      by rewrite bool_decide_eq_false_2.
  - intros entry (old & Hold & ->)%handleReactionUpdate_elem. exists old.
    split; [done|].
    destruct (bool_decide (old.1 = messageId)); simpl.
    + split; [done|apply same_but_reactions_set].
    + split; [done|apply same_but_reactions_refl].
Qed.

(** Bob's view of his message after alice took her thumbs-up off. *)
Lemma reaction_update_shown_witness :
  (chat_after
     (received 200%N {| db := db2; rooms := rooms server2; outbox := [] |}
        (add_reaction alice_live 7%N thumbs_up 4000
           {| db := db2; rooms := rooms server2; outbox := [] |}))
     [(7%N, liked_message)]).*1
  = [7%N].
Proof.
  assert (200%N ∈ live (topic liked_message)
                    {| db := db2; rooms := rooms server2; outbox := [] |})
    as Hin.
  { apply (bool_decide_eq_true_1
             (200%N ∈ ({[100%N; 200%N]} : gset SocketId))). reflexivity. }
  assert (length thumbs_up ≤ 10)%nat as Hlen by (vm_compute; lia).
  destruct (reaction_update_shown alice_live 7%N thumbs_up 4000
              {| db := db2; rooms := rooms server2; outbox := [] |}
              liked_message 200%N [(7%N, liked_message)]
              ltac:(discriminate) Hlen eq_refl eq_refl Hin) as [Hids _].
  exact Hids.
Defined.

(** ** Reactions stay unique *)

Lemma pair_of_absent (u : User) (e : jsstring) (rs : list Reaction) :
  has_reaction u e rs = false → (_id u, e) ∉ map pair_of rs.
Proof.
  unfold has_reaction. intros Hno Hin.
  apply list_elem_of_In, in_map_iff in Hin as (r & Hr & Hin).
  assert (same_reaction u e r = true) as Hsame.
  { unfold same_reaction, pair_of in *. injection Hr as -> ->.
    by rewrite !bool_decide_eq_true_2. }
  assert (existsb (same_reaction u e) rs = true) as Hex
    by (apply existsb_exists; eauto).
  congruence.
Qed.

Lemma NoDup_map_filter {A B} (f : A → B) (P : A → bool) (l : list A) :
  NoDup (map f l) → NoDup (map f (List.filter P l)).
Proof.
  induction l as [|x l IH]; simpl; [done|].
  intros [Hx Hl]%NoDup_cons. destruct (P x); simpl; [|by apply IH].
  apply NoDup_cons. split; [|by apply IH].
  intros Hin. apply Hx.
  apply list_elem_of_In, in_map_iff in Hin as (y & <- & Hy).
  apply filter_In in Hy as [Hy _].
  apply list_elem_of_In, in_map_iff. eauto.
Qed.

Lemma toggleReaction_unique (u : User) (e : jsstring) (now : Z)
    (rs : list Reaction) :
  NoDup (map pair_of rs) → NoDup (map pair_of (toggleReaction u e now rs)).
Proof.
  intros Hnd. destruct (has_reaction u e rs) eqn:Hh.
  - rewrite toggleReaction_present by done. by apply NoDup_map_filter.
  - rewrite toggleReaction_absent by done. rewrite map_app. simpl.
    apply NoDup_app. split_and!; [done| |apply NoDup_singleton].
    intros x Hx ->%list_elem_of_singleton.
    by apply (pair_of_absent u e rs Hh).
Qed.

Lemma toggleReaction_length (u : User) (e : jsstring) (now : Z)
    (rs : list Reaction) :
  NoDup (map pair_of rs) →
  length (toggleReaction u e now rs)
  = if has_reaction u e rs then (length rs - 1)%nat else S (length rs).
Proof.
  intros Hnd. destruct (has_reaction u e rs) eqn:Hh.
  - rewrite toggleReaction_present by done.
    unfold has_reaction, other_reactions in *.
    induction rs as [|r rs IH]; [done|]. simpl in *.
    apply NoDup_cons in Hnd as [Hr Hnd].
    destruct (same_reaction u e r) eqn:Hsame; simpl.
    + assert (existsb (same_reaction u e) rs = false) as Hrest.
      { destruct (existsb (same_reaction u e) rs) eqn:Hex; [|done].
        apply existsb_exists in Hex as (r' & Hin & Hsame').
        destruct Hr. apply list_elem_of_In, in_map_iff. exists r'.
        split; [|done]. unfold same_reaction, pair_of in *.
        apply andb_true_iff in Hsame as [?%bool_decide_eq_true ?%bool_decide_eq_true].
        apply andb_true_iff in Hsame' as [?%bool_decide_eq_true ?%bool_decide_eq_true].
        congruence. }
      rewrite Nat.sub_0_r. f_equal.
      clear IH Hr Hnd Hh. induction rs as [|r' rs IH]; [done|]. simpl in *.
      apply orb_false_iff in Hrest as [-> Hrest]. simpl. by rewrite IH.
    + rewrite IH by done.
      destruct rs as [|r' rs]; [done|]. simpl. lia.
  - rewrite toggleReaction_absent by done. rewrite length_app. simpl. lia.
Qed.

(** X24: at most one reaction per user and emoji on a message is an
    invariant of the store: no send, edit or reaction, by socket or by REST,
    breaks it.  On such a list a reaction changes the length by exactly one:
    one less when the pair was present, one more when it was not. *)
Theorem reactions_unique_preserved (srv : Server) :
  db_reactions_unique (db srv) →
  (∀ u messageId e now,
     db_reactions_unique (addReaction u messageId e now (db srv)).2)
  ∧ (∀ s messageId e now,
       db_reactions_unique (db (add_reaction s messageId e now srv)))
  ∧ (∀ s c t reply newId now now',
       db_reactions_unique (db (send_message s c t reply newId now now' srv)))
  ∧ (∀ u messageId c now now',
       db_reactions_unique (editMessage u messageId c now now' (db srv)).2)
  ∧ (∀ u e now messageId m,
       Message_findById messageId (db srv) = Some m →
       length (toggleReaction u e now (reactions m))
       = if has_reaction u e (reactions m)
         then (length (reactions m) - 1)%nat
         else S (length (reactions m))).
Proof.
  intros Hd.
  assert (∀ u messageId e now,
            db_reactions_unique (addReaction u messageId e now (db srv)).2)
    as Hrest.
  { intros u messageId e now. unfold addReaction, Message_save.
    destruct (Message_findById messageId (db srv)) as [m|] eqn:Hm; [|done].
    simpl. destruct (content_valid (content m)); [|done]. simpl.
    intros other m'. simpl. rewrite lookup_insert.
    case_decide; [|by apply Hd].
    intros [= <-]. simpl. apply toggleReaction_unique. by apply (Hd messageId). }
  split_and!.
  - exact Hrest.
  - intros s messageId e now.
    destruct (add_reaction_db s messageId e now srv) as [-> | ->]; [done|].
    apply Hrest.
  - intros s c t reply newId now now'.
    destruct (send_message_cases s c t reply newId now now' srv)
      as [(Hne & Hlen & tp & Ht & Ha)|[e ->]]; [|done].
    rewrite (send_message_sendable _ _ _ _ _ _ _ _ tp Hne Hlen Ht Ha). simpl.
    intros other m'. simpl. rewrite lookup_insert.
    case_decide; [|by apply Hd].
    intros [= <-]. simpl. apply NoDup_nil_2.
  - intros u messageId c now now'. unfold editMessage, Message_save.
    destruct (Message_findById messageId (db srv)) as [m|] eqn:Hm; [|done].
    destruct (negb _); [done|]. simpl. destruct (_ <? _)%Z; [done|].
    destruct (content_valid _); [|done]. simpl.
    intros other m'. simpl. rewrite lookup_insert.
    case_decide; [|by apply Hd].
    intros [= <-]. simpl. by apply (Hd messageId).
  - intros u e now messageId m Hm. apply toggleReaction_length.
    by apply (Hd messageId).
Qed.

Lemma db2_reactions_unique : db_reactions_unique db2.
Proof.
  intros messageId m Hm. simpl in Hm.
  apply lookup_insert_Some in Hm as [[_ <-]|[_ Hm]];
    [|by rewrite lookup_empty in Hm].
  simpl. apply NoDup_cons. split; [|apply NoDup_singleton].
  intros Hin%list_elem_of_singleton. discriminate Hin.
Defined.

(** Alice takes her thumbs-up off bob's message: one reaction less. *)
Lemma reactions_unique_preserved_witness :
  length (toggleReaction alice thumbs_up 4000 (reactions liked_message)) = 1%nat.
Proof.
  destruct (reactions_unique_preserved
              {| db := db2; rooms := ∅; outbox := [] |} db2_reactions_unique)
    as (_ & _ & _ & _ & Hlen).
  apply (Hlen alice thumbs_up 4000%Z 7%N liked_message eq_refl).
Defined.

(** ** The reaction bar *)

Lemma group_for_count_reaction (e : jsstring) (acc : list ReactionGroup)
    (r : Reaction) :
  group_for e (count_reaction acc r)
  = if bool_decide (reaction_emoji r = e) then
      Some match group_for e acc with
           | Some g => {| group_emoji := group_emoji g;
                          group_count := group_count g + 1;
                          group_users := group_users g ++ [reaction_user r] |}
           | None => {| group_emoji := reaction_emoji r; group_count := 1;
                        group_users := [reaction_user r] |}
           end
    else group_for e acc.
Proof.
  unfold group_for. induction acc as [|g acc IH]; simpl.
  - by destruct (bool_decide (reaction_emoji r = e)).
  - destruct (decide (group_emoji g = reaction_emoji r)) as [Hg|Hg].
    + rewrite (bool_decide_eq_true_2 _ Hg). simpl.
      destruct (decide (reaction_emoji r = e)) as [He|He].
      * rewrite (bool_decide_eq_true_2 _ He).
        by rewrite !bool_decide_eq_true_2 by congruence.
      * rewrite (bool_decide_eq_false_2 _ He).
        by rewrite !bool_decide_eq_false_2 by congruence.
    + rewrite (bool_decide_eq_false_2 _ Hg). simpl. rewrite IH.
      destruct (decide (group_emoji g = e)) as [He|He].
      * rewrite (bool_decide_eq_true_2 _ He).
        by rewrite bool_decide_eq_false_2 by congruence.
      * by rewrite (bool_decide_eq_false_2 _ He).
Qed.

Lemma count_reaction_emojis (acc : list ReactionGroup) (r : Reaction) :
  map group_emoji (count_reaction acc r)
  = if bool_decide (reaction_emoji r ∈ map group_emoji acc)
    then map group_emoji acc
    else map group_emoji acc ++ [reaction_emoji r].
Proof.
  induction acc as [|g acc IH]; cbn [count_reaction map].
  - rewrite bool_decide_eq_false_2 by apply not_elem_of_nil. done.
  - destruct (decide (group_emoji g = reaction_emoji r)) as [Hg|Hg].
    + rewrite (bool_decide_eq_true_2 _ Hg). cbn [map group_emoji].
      rewrite bool_decide_eq_true_2; [done|]. rewrite Hg.
      apply list_elem_of_here.
    + rewrite (bool_decide_eq_false_2 _ Hg). cbn [map]. rewrite IH.
      destruct (decide (reaction_emoji r ∈ map group_emoji acc)) as [Hin|Hin].
      * rewrite (bool_decide_eq_true_2 _ Hin).
        rewrite bool_decide_eq_true_2; [done|]. by apply list_elem_of_further.
      * rewrite (bool_decide_eq_false_2 _ Hin).
        rewrite bool_decide_eq_false_2; [done|].
        intros [?|?]%elem_of_cons; congruence.
Qed.

Lemma reaction_groups_snoc (rs : list Reaction) (r : Reaction) :
  reaction_groups (rs ++ [r]) = count_reaction (reaction_groups rs) r.
Proof. unfold reaction_groups. by rewrite fold_left_app. Qed.

Lemma with_emoji_snoc (e : jsstring) (rs : list Reaction) (r : Reaction) :
  with_emoji e (rs ++ [r])
  = with_emoji e rs ++ (if bool_decide (reaction_emoji r = e) then [r] else []).
Proof. unfold with_emoji. by rewrite List.filter_app. Qed.

(** X25: the reaction bar has exactly one button per emoji that occurs
    among the reactions; the button of an emoji counts the reactions with
    that emoji and lists their users in the order of the reactions.  An
    emoji without reactions has no button. *)
Theorem reaction_groups_count (rs : list Reaction) :
  NoDup (map group_emoji (reaction_groups rs))
  ∧ (∀ e, group_for e (reaction_groups rs)
          = match with_emoji e rs with
            | [] => None
            | _ :: _ =>
                Some {| group_emoji := e;
                        group_count := length (with_emoji e rs);
                        group_users := map reaction_user (with_emoji e rs) |}
            end)
  ∧ (∀ e, e ∈ map group_emoji (reaction_groups rs)
          ↔ e ∈ map reaction_emoji rs).
Proof.
  induction rs as [|r rs (IHnd & IHfor & IHin)] using rev_ind.
  - split_and!; [constructor|done|done].
  - rewrite reaction_groups_snoc. split_and!.
    + rewrite count_reaction_emojis.
      destruct (bool_decide _) eqn:Hb; [done|].
      apply bool_decide_eq_false in Hb. apply NoDup_app.
      split_and!; [done| |apply NoDup_singleton].
      by intros x Hx ->%list_elem_of_singleton.
    + intros e. rewrite group_for_count_reaction, with_emoji_snoc, IHfor.
      destruct (decide (reaction_emoji r = e)) as [<-|He].
      * rewrite bool_decide_eq_true_2 by done.
        destruct (with_emoji (reaction_emoji r) rs) as [|r0 l]; simpl; [done|].
        rewrite length_app, map_app. simpl. by rewrite Nat.add_1_r.
      * rewrite bool_decide_eq_false_2 by done. by rewrite app_nil_r.
    + intros e. rewrite count_reaction_emojis, map_app, elem_of_app. simpl.
      rewrite list_elem_of_singleton, <- IHin.
      destruct (bool_decide _) eqn:Hb.
      * apply bool_decide_eq_true in Hb. split; [by left|].
        intros [H|H]; [done|by subst].
      * by rewrite elem_of_app, list_elem_of_singleton.
Qed.

(** ** The edit button and the server *)

(** X26: the browser offers the edit of a message only when the server, at
    the same reading of the clock, would accept it: own message, inside the
    window.  The two windows differ at one instant: exactly fifteen minutes
    after creation the button is gone while the server still accepts. *)
Theorem canEdit_server_accepts (u : User) (messageId : ObjectId) (c : jsstring)
    (now now' : Z) (d : Db) (m : Message) :
  Message_findById messageId d = Some m →
  content_valid (trim c) = true →
  (canEdit (isOwn u m) now m = true →
   status (editMessage u messageId c now now' d).1 = 200%nat)
  ∧ (isOwn u m = true → (now - createdAt m = 15 * 60 * 1000)%Z →
     canEdit (isOwn u m) now m = false
     ∧ status (editMessage u messageId c now now' d).1 = 200%nat)
  ∧ (status (editMessage u messageId c now now' d).1 = 200%nat →
     isOwn u m = true).
Proof.
  intros Hm Hv. unfold canEdit, isOwn, editMessage, Message_save.
  rewrite Hm. unfold fifteenMinutes. simpl. rewrite Hv.
  destruct (decide (sender m = _id u)) as [Hs|Hs].
  - rewrite (bool_decide_eq_true_2 _ Hs). simpl. split_and!.
    + intros Hin%Z.ltb_lt.
      destruct (Z.ltb_spec (createdAt m) (now - 15 * 60 * 1000)); [lia|done].
    + intros _ Hat. split; [apply Z.ltb_ge; lia|].
      destruct (Z.ltb_spec (createdAt m) (now - 15 * 60 * 1000)); [lia|done].
    + done.
  - rewrite (bool_decide_eq_false_2 _ Hs). simpl.
    split_and!; [done|done|discriminate].
Qed.

(** Bob's message, 14:59 after he wrote it. *)
Lemma canEdit_server_accepts_witness :
  status (editMessage bob 7%N (js "hello there") (1000 + 899000) 900100 db1).1
  = 200%nat.
Proof.
  destruct (canEdit_server_accepts bob 7%N (js "hello there") (1000 + 899000)
              900100 db1 bobs_message eq_refl eq_refl) as (Hoffer & _).
  apply Hoffer. reflexivity.
Defined.

(** ** The typing indicator of the others *)

Lemma presence_after_app (l1 l2 : list Incoming) (p : Presence) :
  presence_after (l1 ++ l2) p = presence_after l2 (presence_after l1 p).
Proof. apply fold_left_app. Qed.

(** The entry of a user stays until something clears it. *)
Lemma presence_after_typing_kept (u : User) (incoming : list Incoming)
    (p : Presence) :
  existsb (clears_typing_of u) incoming = false →
  is_Some (typingUsers p !! _id u) →
  is_Some (typingUsers (presence_after incoming p) !! _id u).
Proof.
  unfold presence_after. revert p.
  induction incoming as [|i incoming IH]; intros p Hno Hp; [done|].
  simpl in *. apply orb_false_iff in Hno as [Hi Hno].
  apply IH; [done|].
  destruct i as [e|]; [|done].
  destruct e; simpl in *; try done.
  - rewrite lookup_insert. by case_decide.
  - apply bool_decide_eq_false in Hi. by rewrite lookup_delete_ne.
Qed.

(** What neither writes nor clears the entry of a user leaves it as it
    is. *)
Lemma presence_after_typing_same (u : User) (incoming : list Incoming)
    (p : Presence) :
  existsb (clears_typing_of u) incoming = false →
  existsb (sets_typing_of u) incoming = false →
  typingUsers (presence_after incoming p) !! _id u = typingUsers p !! _id u.
Proof.
  unfold presence_after. revert p.
  induction incoming as [|i incoming IH]; intros p Hc Hs; [done|].
  simpl in *. apply orb_false_iff in Hc as [Hi Hc].
  apply orb_false_iff in Hs as [Hi' Hs].
  rewrite IH by done.
  destruct i as [e|]; [|done].
  destruct e; simpl in *; try done.
  - apply bool_decide_eq_false in Hi'. by rewrite lookup_insert_ne.
  - apply bool_decide_eq_false in Hi. by rewrite lookup_delete_ne.
Qed.

Lemma inbox_app (conn : SocketId) (l1 l2 : list Emit) :
  inbox conn (l1 ++ l2) = inbox conn l1 ++ inbox conn l2.
Proof. unfold inbox. by rewrite List.filter_app, map_app. Qed.

Lemma inbox_one (conn : SocketId) (to : gset SocketId) (e : Event) :
  inbox conn [{| recipients := to; event := e |}]
  = if decide (conn ∈ to) then [e] else [].
Proof.
  unfold inbox. simpl. destruct (decide (conn ∈ to)) as [Hin|Hin].
  - by rewrite (bool_decide_eq_true_2 _ Hin).
  - by rewrite (bool_decide_eq_false_2 _ Hin).
Qed.

Lemma app_four {A} (l1 l2 l3 l4 : list A) (x : A) :
  l1 ++ l2 ++ l3 ++ [x] ++ l4 = (l1 ++ l2 ++ l3) ++ x :: l4.
Proof. by rewrite <- !app_assoc. Qed.

Lemma typing_stop_outbox (s : Socket) (t : ObjectId) (srv : Server) :
  outbox (typing_stop s t srv)
  = outbox srv ++ [{| recipients := live t srv ∖ {[socket_id s]};
                      event := user_stop_typing (user s) t |}].
Proof. reflexivity. Qed.

Lemma leave_topic_outbox (s : Socket) (t : ObjectId) (srv : Server) :
  outbox (leave_topic s t srv).2
  = outbox srv ++ [{| recipients := live t srv ∖ {[socket_id s]};
                      event := user_left_topic (user s) |}].
Proof.
  unfold leave_topic, socket_to_emit. simpl.
  rewrite socket_leave_outbox, live_socket_leave.
  destruct (decide (t = t)) as [_|[]]; [|done].
  do 3 f_equal. apply set_eq. intros x.
  rewrite !elem_of_difference. tauto.
Qed.

(** The server after a user typed, lost the connection and came back on a
    new socket: the new socket is handed the buffered [leave-topic] and
    [typing-stop], and then the [join-topic] of the topic view. *)
Lemma reconnect_after_lost (s : Socket) (t : ObjectId) (srv : Server)
    (id : SocketId) :
  (run [keystroke; connection_lost; reconnect id] (fresh_client s t, srv)).2
  = let s' := {| socket_id := id; user := user s; currentTopic := None |} in
    (join_topic s' t
       (typing_stop s' t
          (leave_topic s' t (disconnect s (typing_start s t srv))).2)).2.
Proof.
  unfold run. simpl. unfold transmit. simpl.
  by destruct (join_topic _ t _).
Qed.

(** What [disconnect] adds to the log: at most one [user-left-topic]. *)
Lemma disconnect_outbox (s : Socket) (srv : Server) :
  ∃ left,
    outbox (disconnect s srv) = outbox srv ++ left
    ∧ Forall (λ e, event e = user_left_topic (user s)) left.
Proof.
  unfold disconnect, socket_to_emit.
  destruct (currentTopic s) as [t|]; simpl.
  - eexists [_]. split; [done|]. by repeat constructor.
  - exists []. by rewrite app_nil_r.
Qed.

(** What [join-topic] adds to the log: one emit, an error or a
    [user-joined-topic]. *)
Lemma join_topic_outbox (s : Socket) (t : ObjectId) (srv : Server) :
  ∃ e, outbox (join_topic s t srv).2 = outbox srv ++ [e]
       ∧ ((∃ m, event e = error m) ∨ event e = user_joined_topic (user s)).
Proof.
  unfold join_topic, socket_emit, socket_to_emit.
  destruct (Topic_findById t (db srv)) as [tp|]; simpl.
  - destruct (hasAccess tp (user s)); simpl; eexists; split; eauto.
  - eexists; split; eauto.
Qed.

Lemma inbox_left (conn : SocketId) (u v : User) (left : list Emit) :
  Forall (λ e, event e = user_left_topic u) left →
  existsb (clears_typing_of v) (from_server <$> inbox conn left) = false
  ∧ existsb (sets_typing_of v) (from_server <$> inbox conn left) = false.
Proof.
  induction 1 as [|e left He _ [IH1 IH2]]; [done|].
  unfold inbox in *. simpl. destruct (bool_decide _); [|done].
  simpl. rewrite He. simpl. done.
Qed.



(** ** From the input box to the store *)

Lemma send_message_content_passes (s : Socket) (c : jsstring) (t : ObjectId)
    (reply : option ObjectId) (newId : ObjectId) (now now' : Z) (srv : Server) :
  trim c ≠ [] → (length c ≤ 1000)%nat →
  ¬ InvalidContent s srv (send_message s c t reply newId now now' srv).
Proof.
  intros Hne Hlen. unfold InvalidContent, send_message.
  assert (c ≠ []) as Hc by (intros ->; by apply Hne).
  rewrite (bool_decide_eq_false_2 _ Hc), (bool_decide_eq_false_2 _ Hne).
  simpl. destruct (Nat.ltb_spec 1000 (length c)) as [?|_]; [lia|].
  destruct (Topic_findById t (db srv)) as [tp|]; [|intros [H|H]; clash H].
  destruct (hasAccess tp (user s)); simpl; [|intros [H|H]; clash H].
  unfold Message_save. destruct (content_valid _); intros [H|H]; clash H.
Qed.

(** X28: whatever the input box sends passes the content checks of the
    server.  The box holds at most 1000 code units.  It sends nothing when
    its text is blank, a send is under way, the socket is not connected or
    no topic is open; otherwise it sends the trimmed text to the open
    topic, which [send-message] never answers with a content error and,
    when the topic is open to the sender, stores as it is. *)
Theorem handleSendMessage_accepted (message : jsstring) (sending : bool)
    (currentTopic : option ObjectId) (connected hasSocket : bool)
    (replyTo : option ObjectId) (s : Socket) (newId : ObjectId) (now now' : Z)
    (srv : Server) :
  (length message ≤ 1000)%nat →
  (handleSendMessage message sending currentTopic connected hasSocket replyTo
   = None
   ↔ trim message = [] ∨ sending = true ∨ connected = false
     ∨ hasSocket = false ∨ currentTopic = None)
  ∧ (∀ cmd,
       handleSendMessage message sending currentTopic connected hasSocket
         replyTo = Some cmd →
       let srv' := send_message s (cmd_content cmd) (cmd_topicId cmd)
                     (cmd_replyTo cmd) newId now now' srv in
       cmd_content cmd = trim message
       ∧ currentTopic = Some (cmd_topicId cmd)
       ∧ ¬ InvalidContent s srv srv'
       ∧ (∀ tp, Topic_findById (cmd_topicId cmd) (db srv) = Some tp →
                hasAccess tp (user s) = true →
                content <$> Message_findById newId (db srv')
                = Some (trim message))).
Proof.
  intros Hlen. unfold handleSendMessage, chat_sendMessage.
  destruct (decide (trim message = [])) as [He|He].
  { rewrite (bool_decide_eq_true_2 _ He). simpl. split; [tauto|]. discriminate. }
  rewrite (bool_decide_eq_false_2 _ He).
  destruct sending; simpl; [split; [tauto|discriminate]|].
  destruct connected; simpl; [|split; [tauto|discriminate]].
  destruct currentTopic as [t|]; [|split; [tauto|discriminate]].
  destruct hasSocket; simpl; [|split; [tauto|discriminate]].
  split; [split; [discriminate|intuition congruence]|].
  intros cmd [= <-]. simpl.
  assert (trim (trim message) ≠ []) as Hne by (by rewrite trim_idempotent).
  assert (length (trim message) ≤ 1000)%nat as Hlen'
    by (pose proof (trim_length message); lia).
  split_and!; [done|done|by apply send_message_content_passes|].
  intros tp Ht Ha.
  rewrite (send_message_sendable _ _ _ _ _ _ _ _ tp Hne Hlen' Ht Ha).
  unfold Message_findById. simpl. rewrite lookup_insert_eq. simpl.
  by rewrite trim_idempotent.
Qed.

(** Alice types a padded greeting into the box of the public topic. *)
Lemma handleSendMessage_accepted_witness :
  content <$> Message_findById 9%N
                (db (send_message alice_socket (js "hi") 10%N None 9%N 70 71
                       server1))
  = Some (js "hi").
Proof.
  assert (length (js "  hi ") ≤ 1000)%nat as Hlen by (vm_compute; lia).
  destruct (handleSendMessage_accepted (js "  hi ") false (Some 10%N) true
              true None alice_socket 9%N 70 71 server1 Hlen) as [_ Hsent].
  destruct (Hsent _ eq_refl) as (_ & _ & _ & Hstored).
  exact (Hstored lobby eq_refl eq_refl).
Defined.

(** ** Editing: who, and what else *)

(** X29: an edit that is not answered with 200 leaves the store as it was.
    Only the author edits: everybody else gets 403, the admins of the topic
    included, who may nevertheless delete the message.  Content that trims
    to nothing, or to more than 1000, is answered with 500, not with a
    validation error. *)
Theorem editMessage_refusals (u : User) (messageId : ObjectId) (c : jsstring)
    (now now' : Z) (d : Db) (m : Message) :
  Message_findById messageId d = Some m →
  (status (editMessage u messageId c now now' d).1 ≠ 200%nat →
   (editMessage u messageId c now now' d).2 = d)
  ∧ (sender m ≠ _id u →
     editMessage u messageId c now now' d
     = (json 403 (msg "Can only edit your own messages"), d))
  ∧ (∀ t, sender m ≠ _id u →
          Topic_findById (topic m) d = Some t → _id u ∈ admins t →
          status (deleteMessage u messageId d).1 = 200%nat)
  ∧ (sender m = _id u → (now - createdAt m ≤ fifteenMinutes)%Z →
     content_valid (trim c) = false →
     editMessage u messageId c now now' d = (json 500 thrown, d)).
Proof.
  intros Hm. split_and!.
  - unfold editMessage, Message_save. rewrite Hm.
    destruct (negb _); [done|]. simpl. destruct (_ <? _)%Z; [done|].
    by destruct (content_valid _).
  - intros Hs. unfold editMessage. rewrite Hm.
    by rewrite (bool_decide_eq_false_2 _ Hs).
  - intros t Hs Ht Ha. unfold deleteMessage. rewrite Hm, Ht. cbv zeta.
    rewrite (proj2 (includes_spec _ _) Ha).
    by rewrite andb_false_r.
  - intros Hs Hin Hv. unfold editMessage, Message_save. rewrite Hm.
    rewrite (bool_decide_eq_true_2 _ Hs). simpl.
    destruct (Z.ltb_spec (createdAt m) (now - fifteenMinutes)) as [?|_]; [lia|].
    by rewrite Hv.
Qed.

(** Alice, admin of the public topic, and bob's message in it. *)
Lemma editMessage_refusals_witness :
  editMessage alice 7%N (js "mine now") 2000 2001 db1
  = (json 403 (msg "Can only edit your own messages"), db1)
  ∧ status (deleteMessage alice 7%N db1).1 = 200%nat.
Proof.
  destruct (editMessage_refusals alice 7%N (js "mine now") 2000 2001 db1
              bobs_message eq_refl) as (_ & Hedit & Hdelete & _).
  split.
  - apply Hedit. discriminate.
  - apply (Hdelete lobby); [discriminate|reflexivity|].
    apply (bool_decide_eq_true_1 (1%N ∈ [1%N])). reflexivity.
Defined.

(** X30: an edit touches one message and, of it, the content and the two
    edit marks only: its sender, topic, creation time, reactions, reply
    and type stay, and so do all other messages and all topics. *)
Theorem editMessage_frame (u : User) (messageId : ObjectId) (c : jsstring)
    (now now' : Z) (d : Db) (m : Message) :
  Message_findById messageId d = Some m →
  (∃ m', Message_findById messageId (editMessage u messageId c now now' d).2
         = Some m'
         ∧ sender m' = sender m ∧ topic m' = topic m
         ∧ createdAt m' = createdAt m ∧ reactions m' = reactions m
         ∧ replyTo m' = replyTo m ∧ messageType m' = messageType m)
  ∧ (∀ other, other ≠ messageId →
       Message_findById other (editMessage u messageId c now now' d).2
       = Message_findById other d)
  ∧ topics (editMessage u messageId c now now' d).2 = topics d.
Proof.
  intros Hm. unfold editMessage, Message_save. rewrite Hm.
  destruct (negb _); simpl; [by eauto 10|].
  destruct (_ <? _)%Z; simpl; [by eauto 10|].
  destruct (content_valid _); simpl; [|by eauto 10].
  split_and!; [|intros other Hne; by apply lookup_insert_ne|done].
  eexists. split; [apply lookup_insert_eq|]. done.
Qed.

Lemma editMessage_frame_witness :
  topics (editMessage bob 7%N (js "hello there") 2000 2001 db1).2 = topics db1.
Proof.
  destruct (editMessage_frame bob 7%N (js "hello there") 2000 2001 db1
              bobs_message eq_refl) as (_ & _ & Htopics).
  exact Htopics.
Defined.
